(** * codesEsModule: the persistent hardware identifier and the random
      identifier generator

    A shallow embedding of [uniqueUserID/main.mjs] (class
    [UniqueUserIDGenerator]) and of [generate-id/generateID.mjs] (class
    [GenerateID]), with the properties their description states.

    Conventions of the embedding.
    - A JavaScript string is a [string]: the sequence of bytes of its
      UTF-8 form, as [crypto] hashes it.  Every literal of the two
      modules, every MAC address and every digest is ASCII, where bytes
      and UTF-16 code units coincide, and so do their orders.  Where a
      string of a caller's collection is indexed, the index counts its
      code units.
    - Numbers that the code counts with are [N] or [Z]; [Math.random()]
      is a binary64 [float].
    - The Node.js runtime ([os], [fs], [path], [child_process], [console],
      [Math.random], [Date.now], Web Crypto) is a record of what it would
      answer.  A method is a function from the state of the machine to a
      result, returned or thrown, and the state reached; every call to
      the outside is appended to a trace.
    - The file system maps a path to a regular file (content and
      permission bits) or a directory, with the paths the process may
      not read and those on which a write is refused: [readFileSync] and
      [writeFileSync] throw on them, [existsSync] never throws.

    The definitions come first: SHA-256, the JavaScript built-ins, the two
    modules, and the vocabulary of the statements.  The lemmas and the
    theorems follow. *)

From Stdlib Require Import ZArith NArith List Ascii String Bool Lia.
From Stdlib Require Import Permutation Sorted DecimalString Floats.
From stdpp Require Import base option strings gmap.
Import ListNotations.

Local Open Scope string_scope.
Local Open Scope Z_scope.

(* ===================================================================== *)
(** * SHA-256 (FIPS 180-4), as [crypto.createHash('sha256')] computes it *)
(* ===================================================================== *)

Module Sha256.

(** 32-bit words are [Z] reduced modulo [2^32]. *)
Definition wrap (x : Z) : Z := x mod 4294967296.
Definition add32 (x y : Z) : Z := wrap (x + y).
Definition not32 (x : Z) : Z := Z.lxor x 4294967295.
Definition rotr (n x : Z) : Z :=
  Z.lor (Z.shiftr x n) (wrap (Z.shiftl x (32 - n))).

Definition Ch (x y z : Z) : Z := Z.lxor (Z.land x y) (Z.land (not32 x) z).
Definition Maj (x y z : Z) : Z :=
  Z.lxor (Z.lxor (Z.land x y) (Z.land x z)) (Z.land y z).
Definition Sigma0 (x : Z) : Z := Z.lxor (Z.lxor (rotr 2 x) (rotr 13 x)) (rotr 22 x).
Definition Sigma1 (x : Z) : Z := Z.lxor (Z.lxor (rotr 6 x) (rotr 11 x)) (rotr 25 x).
Definition sigma0 (x : Z) : Z := Z.lxor (Z.lxor (rotr 7 x) (rotr 18 x)) (Z.shiftr x 3).
Definition sigma1 (x : Z) : Z := Z.lxor (Z.lxor (rotr 17 x) (rotr 19 x)) (Z.shiftr x 10).

(** The constants of FIPS 180-4 are defined from the primes: a round
    constant is the first 32 bits of the fractional part of the cube root
    of a prime, an initial hash value the same of its square root. *)
Definition is_prime (n : nat) : bool :=
  List.forallb (fun d => negb (Nat.eqb (Nat.modulo n d) 0)) (List.seq 2 (n - 2)).

Definition primes (count : nat) : list Z :=
  List.map Z.of_nat (List.firstn count (List.filter is_prime (List.seq 2 310))).

(** The integer cube root, found bit by bit from bit [bits - 1] down. *)
Fixpoint cube_root (bits : nat) (n r : Z) : Z :=
  match bits with
  | O => r
  | S b =>
      let r' := r + 2 ^ Z.of_nat b in
      cube_root b n (if r' * r' * r' <=? n then r' else r)
  end.

Definition frac_cube_root (p : Z) : Z := wrap (cube_root 36 (p * 2 ^ 96) 0).
Definition frac_square_root (p : Z) : Z := wrap (Z.sqrt (p * 2 ^ 64)).

Definition K : list Z := Eval vm_compute in List.map frac_cube_root (primes 64).

Definition word_at (i : nat) (win : list Z) : Z := List.nth i win 0.

(** The eight working variables, and the chaining value. *)
Record regs : Type := Regs
  { ra : Z; rb : Z; rc : Z; rd : Z; re : Z; rf : Z; rg : Z; rh : Z }.

Definition regs_of (l : list Z) : regs :=
  Regs (word_at 0 l) (word_at 1 l) (word_at 2 l) (word_at 3 l)
       (word_at 4 l) (word_at 5 l) (word_at 6 l) (word_at 7 l).

Definition H0 : regs :=
  Eval vm_compute in regs_of (List.map frac_square_root (primes 8)).

Definition round (k wt : Z) (r : regs) : regs :=
  let t1 := add32 (add32 (add32 (rh r) (Sigma1 (re r)))
                         (add32 (Ch (re r) (rf r) (rg r)) k)) wt in
  let t2 := add32 (Sigma0 (ra r)) (Maj (ra r) (rb r) (rc r)) in
  Regs (add32 t1 t2) (ra r) (rb r) (rc r) (add32 (rd r) t1) (re r) (rf r) (rg r).

(** The message schedule is kept as a sliding window of sixteen words:
    the head is [W t], and [W (t+16)] is appended as the head leaves. *)
Fixpoint rounds (ks : list Z) (win : list Z) (r : regs) : regs :=
  match ks with
  | [] => r
  | k :: ks' =>
      let wt := word_at 0 win in
      let next := add32 (add32 (sigma1 (word_at 14 win)) (word_at 9 win))
                        (add32 (sigma0 (word_at 1 win)) wt) in
      rounds ks' (List.tl win ++ [next]) (round k wt r)
  end.

Definition compress (h : regs) (block : list Z) : regs :=
  let r := rounds K block h in
  Regs (add32 (ra h) (ra r)) (add32 (rb h) (rb r))
       (add32 (rc h) (rc r)) (add32 (rd h) (rd r))
       (add32 (re h) (re r)) (add32 (rf h) (rf r))
       (add32 (rg h) (rg r)) (add32 (rh h) (rh r)).

(** Big-endian packing of bytes into 32-bit words. *)
Fixpoint words (bs : list Z) : list Z :=
  match bs with
  | b0 :: b1 :: b2 :: b3 :: rest =>
      (b0 * 16777216 + b1 * 65536 + b2 * 256 + b3) :: words rest
  | _ => []
  end.

Definition be64 (n : Z) : list Z :=
  List.map (fun k => Z.shiftr n (8 * k) mod 256) [7; 6; 5; 4; 3; 2; 1; 0].

(** Padding: a one bit, zeros up to 56 modulo 64, the bit length. *)
Definition pad (msg : list Z) : list Z :=
  let len := Z.of_nat (List.length msg) in
  let zeros := Z.to_nat ((55 - len) mod 64) in
  msg ++ [128] ++ List.repeat 0 zeros ++ be64 (8 * len).

Fixpoint blocks (fuel : nat) (h : regs) (bs : list Z) : regs :=
  match fuel with
  | O => h
  | S fuel' =>
      match bs with
      | [] => h
      | _ => blocks fuel' (compress h (words (firstn 64 bs))) (skipn 64 bs)
      end
  end.

Definition bytes_of (s : string) : list Z :=
  List.map (fun c => Z.of_N (N_of_ascii c)) (list_ascii_of_string s).

Definition digest (s : string) : regs :=
  let p := pad (bytes_of s) in blocks (List.length p) H0 p.

(** [digest('hex')]: lowercase hexadecimal, most significant nibble
    first. *)
Definition hex_digit (n : Z) : ascii :=
  if n <? 10 then ascii_of_N (Z.to_N (48 + n))
  else ascii_of_N (Z.to_N (87 + n)).

Definition nibble (x : Z) (k : Z) : Z := Z.land (Z.shiftr x (4 * k)) 15.

Definition hex8 (x : Z) : list ascii :=
  List.map (fun k => hex_digit (nibble x k)) [7; 6; 5; 4; 3; 2; 1; 0].

Definition hex (r : regs) : string :=
  string_of_list_ascii
    (hex8 (ra r) ++ hex8 (rb r) ++ hex8 (rc r) ++ hex8 (rd r) ++
     hex8 (re r) ++ hex8 (rf r) ++ hex8 (rg r) ++ hex8 (rh r)).

Definition sha256_hex (s : string) : string := hex (digest s).

End Sha256.

(* ===================================================================== *)
(** * JavaScript values and the built-in operations the modules call     *)
(* ===================================================================== *)

Module Js.

(** What a [throw] carries. *)
Inductive error : Type :=
| ENOENT (path : string)
| EACCES (path : string)
| EISDIR (path : string)
| ExecFailed (cmd : string)
| TypeError (msg : string).

(** A computation over a state [S] that returns or throws.  The state
    reached is kept in both cases, as a [catch] block sees it. *)
Inductive result (A : Type) : Type :=
| Ok (a : A)
| Throw (e : error).
Arguments Ok {A} a.
Arguments Throw {A} e.

Definition M (S A : Type) : Type := S -> result A * S.

Definition ret {S A} (a : A) : M S A := fun s => (Ok a, s).
Definition bind {S A B} (m : M S A) (k : A -> M S B) : M S B :=
  fun s => match m s with
           | (Ok a, s') => k a s'
           | (Throw e, s') => (Throw e, s')
           end.
Definition throw {S A} (e : error) : M S A := fun s => (Throw e, s).
Definition try_catch {S A} (body : M S A) (handler : error -> M S A) : M S A :=
  fun s => match body s with
           | (Ok a, s') => (Ok a, s')
           | (Throw e, s') => handler e s'
           end.
Definition get {S} : M S S := fun s => (Ok s, s).
Definition modify {S} (f : S -> S) : M S unit := fun s => (Ok tt, f s).
Definition when {S} (b : bool) (m : M S unit) : M S unit :=
  if b then m else ret tt.

Module Notations.
Notation "'do' x <- m ; k" := (bind m (fun x => k))
  (at level 10, x name, m at level 100, k at level 200,
   format "'[v' 'do'  x  <-  m ; '/' k ']'").
Notation "'run' m ; k" := (bind m (fun _ => k))
  (at level 10, m at level 100, k at level 200,
   format "'[v' 'run'  m ; '/' k ']'").
End Notations.

(** [x || ''] on a string that may be [undefined]. *)
Definition or_empty (o : option string) : string :=
  match o with
  | Some s => if String.eqb s "" then "" else s
  | None => ""
  end.

Definition one (c : ascii) : string := String c EmptyString.

(** The line feed and the double quote, which a literal cannot hold. *)
Definition LF : string := one (ascii_of_N 10).
Definition DQ : string := one (ascii_of_N 34).

Definition str_of_bytes (bs : list N) : string :=
  string_of_list_ascii (List.map ascii_of_N bs).

Fixpoint str_drop (n : nat) (s : string) : string :=
  match n, s with
  | S n', String _ rest => str_drop n' rest
  | _, _ => s
  end.

Definition str_rev (s : string) : string :=
  string_of_list_ascii (List.rev (list_ascii_of_string s)).

(** ** [String.prototype.trim]

    The WhiteSpace and LineTerminator code points of ECMAScript, each in
    its UTF-8 form. *)
Definition whitespace : list string :=
  List.map str_of_bytes
    [ [9]; [10]; [11]; [12]; [13]; [32];
      [194; 160]; [225; 154; 128];
      [226; 128; 128]; [226; 128; 129]; [226; 128; 130]; [226; 128; 131];
      [226; 128; 132]; [226; 128; 133]; [226; 128; 134]; [226; 128; 135];
      [226; 128; 136]; [226; 128; 137]; [226; 128; 138];
      [226; 128; 168]; [226; 128; 169]; [226; 128; 175];
      [226; 129; 159]; [227; 128; 128]; [239; 187; 191] ]%N.

(** Strips leading occurrences of the given tokens; the fuel bounds the
    number of tokens stripped, and the length of the string is enough. *)
Fixpoint strip (tokens : list string) (fuel : nat) (s : string) : string :=
  match fuel with
  | O => s
  | S fuel' =>
      match List.find (fun t => String.prefix t s) tokens with
      | Some t => strip tokens fuel' (str_drop (String.length t) s)
      | None => s
      end
  end.

Definition trimStart (s : string) : string :=
  strip whitespace (String.length s) s.
Definition trimEnd (s : string) : string :=
  str_rev (strip (List.map str_rev whitespace) (String.length s) (str_rev s)).
Definition trim (s : string) : string := trimEnd (trimStart s).

(** ** [String.prototype.split] with a string separator *)
Fixpoint split_go (sep : string) (skip : nat) (cur : string) (s : string)
  : list string :=
  match s with
  | EmptyString => [cur]
  | String c rest =>
      match skip with
      | S k => split_go sep k cur rest
      | O =>
          if String.prefix sep s
          then cur :: split_go sep (String.length sep - 1) "" rest
          else split_go sep 0 (cur ++ one c)%string rest
      end
  end.

Definition split (sep : string) (s : string) : list string :=
  if String.eqb sep "" then List.map one (list_ascii_of_string s)
  else split_go sep 0 "" s.

(** ** [String.prototype.substring] and [charAt], indices as numbers *)
Definition clamp (n : Z) (len : nat) : nat :=
  Z.to_nat (Z.min (Z.max n 0) (Z.of_nat len)).

Definition substring (s : string) (start : Z) (finish : option Z) : string :=
  let len := String.length s in
  let a := clamp start len in
  let b := match finish with Some e => clamp e len | None => len end in
  String.substring (Nat.min a b) (Nat.max a b - Nat.min a b) s.

Definition charAt (s : string) (i : Z) : string :=
  if i <? 0 then ""
  else match String.get (Z.to_nat i) s with
       | Some c => one c
       | None => ""
       end.

(** ** Code units: what [s[i]] and [s.length] count by

    A character of one, two or three bytes is one UTF-16 code unit.  A
    character of four bytes is two, the surrogates of its code point;
    a surrogate on its own is written as the three bytes of its value. *)
Definition trailing (c : ascii) : nat :=
  let b := N_of_ascii c in
  if (b <? 192)%N then 0%nat
  else if (b <? 224)%N then 1%nat
  else if (b <? 240)%N then 2%nat
  else 3%nat.

Definition three_bytes (u : N) : string :=
  str_of_bytes [224 + u / 4096; 128 + (u / 64) mod 64; 128 + u mod 64]%N.

Definition surrogates (b0 b1 b2 b3 : N) : list string :=
  let point :=
    ((b0 mod 8) * 262144 + (b1 mod 64) * 4096 + (b2 mod 64) * 64 + b3 mod 64)%N in
  let v := (point - 65536)%N in
  [three_bytes (55296 + v / 1024); three_bytes (56320 + v mod 1024)].

Definition units_of (character : string) : list string :=
  match List.map N_of_ascii (list_ascii_of_string character) with
  | [b0; b1; b2; b3] => surrogates b0 b1 b2 b3
  | _ => [character]
  end.

(** [need] bytes are still to come for the character begun in [cur]. *)
Fixpoint units_go (need : nat) (cur s : string) : list string :=
  match s with
  | EmptyString => if String.eqb cur "" then [] else [cur]
  | String c rest =>
      match need with
      | O => match trailing c with
             | O => one c :: units_go 0 "" rest
             | S n => units_go (S n) (one c) rest
             end
      | S O => (units_of (cur ++ one c) ++ units_go 0 "" rest)%list
      | S n => units_go n (cur ++ one c)%string rest
      end
  end.

Definition units (s : string) : list string := units_go 0 "" s.

(** ** Number to string: decimal, and [toString(36)] *)
Definition dec (n : N) : string := NilZero.string_of_uint (N.to_uint n).

Definition digits36 : string := "0123456789abcdefghijklmnopqrstuvwxyz".

(** The fuel bounds the number of digits; the binary length is enough. *)
Fixpoint base36_go (fuel : nat) (n : Z) (acc : string) : string :=
  match fuel with
  | O => acc
  | S fuel' =>
      let acc' := (charAt digits36 (n mod 36) ++ acc)%string in
      if n <? 36 then acc' else base36_go fuel' (n / 36) acc'
  end.

Definition base36 (n : Z) : string :=
  base36_go (S (Z.to_nat (Z.log2 n))) n "".

Definition toString36 (n : Z) : string :=
  if n <? 0 then ("-" ++ base36 (- n))%string else base36 n.

(** ** [Array.prototype.sort] without a comparator, on strings

    The default order compares code units; the result is the one sorted
    arrangement of the elements, computed here by insertion. *)
Fixpoint insert_sorted (x : string) (l : list string) : list string :=
  match l with
  | [] => [x]
  | y :: l' => if String.leb x y then x :: l else y :: insert_sorted x l'
  end.

Definition sort (l : list string) : list string :=
  List.fold_right insert_sorted [] l.

(** ** [JSON.stringify] on the values a fingerprint holds *)
Inductive value : Type :=
| VString (s : string)
| VNumber (n : N)
| VStrings (l : list string).

Definition hex4 (n : Z) : string :=
  string_of_list_ascii
    (List.map (fun k => Sha256.hex_digit (Sha256.nibble n k)) [3; 2; 1; 0]).

Definition quote_char (c : ascii) : string :=
  let n := Z.of_N (N_of_ascii c) in
  if n =? 8 then "\b"
  else if n =? 9 then "\t"
  else if n =? 10 then "\n"
  else if n =? 12 then "\f"
  else if n =? 13 then "\r"
  else if n =? 34 then ("\" ++ DQ)%string
  else if n =? 92 then "\\"
  else if n <? 32 then ("\u" ++ hex4 n)%string
  else one c.

Fixpoint quote_body (s : string) : string :=
  match s with
  | EmptyString => ""
  | String c rest => (quote_char c ++ quote_body rest)%string
  end.

Definition quote (s : string) : string :=
  (DQ ++ quote_body s ++ DQ)%string.

Definition stringify_value (v : value) : string :=
  match v with
  | VString s => quote s
  | VNumber n => dec n
  | VStrings l => ("[" ++ String.concat "," (List.map quote l) ++ "]")%string
  end.

(** An object literal with string keys that are not array indices is
    enumerated in insertion order. *)
Definition object : Type := list (string * value).

Definition stringify (o : object) : string :=
  ("{" ++ String.concat ","
            (List.map (fun kv => quote (fst kv) ++ ":" ++ stringify_value (snd kv))
                      o)
       ++ "}")%string.

(** [o.k = v] *)
Fixpoint set_field (k : string) (v : value) (o : object) : object :=
  match o with
  | [] => [(k, v)]
  | (k', v') :: o' =>
      if String.eqb k' k then (k, v) :: o' else (k', v') :: set_field k v o'
  end.

Fixpoint get_field (k : string) (o : object) : option value :=
  match o with
  | [] => None
  | (k', v') :: o' => if String.eqb k' k then Some v' else get_field k o'
  end.

Definition keys (o : object) : list string := List.map fst o.

End Js.

(* ===================================================================== *)
(** * uniqueUserID/main.mjs                                              *)
(* ===================================================================== *)

Module UniqueUserID.
Import Js Js.Notations.

(** ** The machine the module runs on *)

(** An entry of [os.cpus()]; only [model] is read. *)
Record cpu : Type := Cpu { model : string }.

(** An address entry of [os.networkInterfaces()]; only [mac] and
    [internal] are read. *)
Record details : Type := Details { mac : string; internal : bool }.

(** The answers of the [os] module.  [networkInterfaces] lists the
    interfaces in the order [Object.keys] enumerates them. *)
Record OS : Type := Os
  { platform : string;
    release : string;
    type : string;
    arch : string;
    cpus : list cpu;
    totalmem : N;
    hostname : string;
    networkInterfaces : list (string * list details);
    homedir : string }.

(** A path names a regular file, with its content as [readFileSync]
    decodes it and the permission bits it was created with, or a
    directory.  [denied_read] are the paths the process may not read.
    [denied_write] are the paths on which a write is refused, and
    [refusal] is the error the write then throws: [EACCES] where the
    permission lacks, [ENOENT] where the parent directory is missing. *)
Inductive node : Type :=
| Regular (content : string) (mode : Z)
| Directory.

Record FileSys : Type := Fs
  { nodes : gmap string node;
    denied_read : gset string;
    denied_write : gset string;
    refusal : string -> error }.

(** What the module does to the outside, in order. *)
Inductive event : Type :=
| OsCall (api : string)
| ExecSync (cmd : string)
| ExistsSync (path : string)
| ReadFileSync (path : string)
| WriteFileSync (path : string) (data : string) (mode : Z)
| ConsoleError (msg : string) (e : error).

(** [exec cmd] is the output of the shell command, [None] when
    [execSync] throws (command not found, non-zero exit status).
    [path_join] is [path.join]. *)
Record World : Type := Mk_World
  { os : OS;
    exec : string -> option string;
    path_join : string -> string -> string;
    fs : FileSys;
    trace : list event }.

(** The fields of a [UniqueUserIDGenerator]; [None] is [null]. *)
Record Generator : Type := Mk_Generator
  { userID : option string;
    storageFile : string }.

Record Machine : Type := Mk_Machine
  { this : Generator;
    world : World }.

Definition log (e : event) (w : World) : World :=
  Mk_World (os w) (exec w) (path_join w) (fs w) (trace w ++ [e]).

Definition with_fs (f : FileSys) (w : World) : World :=
  Mk_World (os w) (exec w) (path_join w) f (trace w).

Definition on_world (f : World -> World) (m : Machine) : Machine :=
  Mk_Machine (this m) (f (world m)).

Definition emit (e : event) : M Machine unit := modify (on_world (log e)).

(** ** The runtime calls *)

Definition os_call {A} (api : string) (f : OS -> A) : M Machine A :=
  bind (emit (OsCall api)) (fun _ =>
  bind get (fun m => ret (f (os (world m))))).

Definition execSync (cmd : string) : M Machine string :=
  bind (emit (ExecSync cmd)) (fun _ =>
  bind get (fun m =>
  match exec (world m) cmd with
  | Some out => ret out
  | None => throw (ExecFailed cmd)
  end)).

Definition fs_exists (f : FileSys) (p : string) : bool :=
  match nodes f !! p with Some _ => true | None => false end.

Definition fs_read (f : FileSys) (p : string) : result string :=
  match nodes f !! p with
  | None => Throw (ENOENT p)
  | Some Directory => Throw (EISDIR p)
  | Some (Regular c _) =>
      if decide (p ∈ denied_read f) then Throw (EACCES p) else Ok c
  end.

(** An existing file keeps its permission bits; [mode] applies when the
    file is created. *)
Definition fs_write (f : FileSys) (p data : string) (mode : Z)
  : result FileSys :=
  if decide (p ∈ denied_write f) then Throw (refusal f p)
  else match nodes f !! p with
       | Some Directory => Throw (EISDIR p)
       | Some (Regular _ m) =>
           Ok (Fs (<[p := Regular data m]> (nodes f))
                  (denied_read f) (denied_write f) (refusal f))
       | None =>
           Ok (Fs (<[p := Regular data mode]> (nodes f))
                  (denied_read f) (denied_write f) (refusal f))
       end.

Definition existsSync (p : string) : M Machine bool :=
  bind (emit (ExistsSync p)) (fun _ =>
  bind get (fun m => ret (fs_exists (fs (world m)) p))).

Definition readFileSync (p : string) : M Machine string :=
  bind (emit (ReadFileSync p)) (fun _ =>
  bind get (fun m =>
  match fs_read (fs (world m)) p with
  | Ok c => ret c
  | Throw e => throw e
  end)).

Definition writeFileSync (p data : string) (mode : Z) : M Machine unit :=
  bind (emit (WriteFileSync p data mode)) (fun _ =>
  bind get (fun m =>
  match fs_write (fs (world m)) p data mode with
  | Ok f' => modify (on_world (with_fs f'))
  | Throw e => throw e
  end)).

Definition console_error (msg : string) (e : error) : M Machine unit :=
  emit (ConsoleError msg e).

Definition set_userID (id : string) : M Machine unit :=
  modify (fun m => Mk_Machine (Mk_Generator (Some id) (storageFile (this m)))
                              (world m)).

Definition this_storageFile : M Machine string :=
  bind get (fun m => ret (storageFile (this m))).

(** ** [getNetworkMACs] *)

Definition zero_mac : string := "00:00:00:00:00:00".

(** The two nested [forEach] loops, pushing onto [macs]. *)
Definition collect_macs (interfaces : list (string * list details))
  : list string :=
  fold_left
    (fun (macs : list string) iface =>
       fold_left
         (fun (macs : list string) d =>
            if negb (internal d) && negb (String.eqb (mac d) zero_mac)
            then (macs ++ [mac d])%list else macs)
         (snd iface) macs)
    interfaces [].

Definition getNetworkMACs : M Machine (list string) :=
  do interfaces <- os_call "networkInterfaces" networkInterfaces;
  let macs := collect_macs interfaces in
  ret (sort macs).

(** ** [getSystemInfo]

    [info] is a local object that the [try] blocks extend statement by
    statement; what was assigned before a [throw] stays assigned. *)
Record Frame : Type := Mk_Frame
  { info : object;
    machine : Machine }.

Definition lift {A} (c : M Machine A) : M Frame A :=
  fun fr => match c (machine fr) with
            | (r, m') => (r, Mk_Frame (info fr) m')
            end.

Definition in_frame {A} (c : M Frame A) : M Machine A :=
  fun m => match c (Mk_Frame [] m) with
           | (r, fr) => (r, machine fr)
           end.

Definition init_info (o : object) : M Frame unit :=
  modify (fun fr => Mk_Frame o (machine fr)).

Definition assign (k : string) (v : string) : M Frame unit :=
  modify (fun fr => Mk_Frame (set_field k (VString v) (info fr)) (machine fr)).

Definition get_info : M Frame object :=
  do fr <- get; ret (info fr).

(** [execSync(cmd).toString().trim()] *)
Definition probe (cmd : string) : M Frame string :=
  do out <- lift (execSync cmd); ret (trim out).

Definition second (sep : string) (s : string) : string :=
  or_empty (nth_error (split sep s) 1).

Definition cmd_cpuinfo : string :=
  "cat /proc/cpuinfo | grep -m 1 " ++ DQ ++ "physical id" ++ DQ ++
  " && cat /proc/cpuinfo | grep -m 1 " ++ DQ ++ "serial" ++ DQ ++
  " && cat /proc/cpuinfo | grep -m 1 " ++ DQ ++ "Hardware" ++ DQ.

Definition cmd_profiler (field : string) : string :=
  "system_profiler SPHardwareDataType | grep " ++ DQ ++ field ++ DQ.

Definition windows_probes : M Frame unit :=
  do diskSerial <- probe "wmic diskdrive get SerialNumber";
  run assign "diskSerial" (second LF diskSerial);
  do biosSerial <- probe "wmic bios get SerialNumber";
  run assign "biosSerial" (second LF biosSerial);
  do motherboardUUID <- probe "wmic csproduct get UUID";
  run assign "motherboardUUID" (second LF motherboardUUID);
  do cpuId <- probe "wmic cpu get ProcessorId";
  assign "cpuId" (second LF cpuId).

Definition linux_probes : M Frame unit :=
  do systemUUID <- probe "cat /sys/class/dmi/id/product_uuid 2>/dev/null";
  run assign "systemUUID" systemUUID;
  do motherboardSerial <- probe "cat /sys/class/dmi/id/board_serial 2>/dev/null";
  run assign "motherboardSerial" motherboardSerial;
  do cpuInfo <- probe cmd_cpuinfo;
  run assign "cpuDetails" cpuInfo;
  do diskInfo <- probe "lsblk -no UUID $(findmnt -n -o SOURCE /)";
  assign "mainDiskUUID" diskInfo.

Definition darwin_probes : M Frame unit :=
  do hardwareUUIDOutput <- probe (cmd_profiler "Hardware UUID");
  run assign "hardwareUUID" (second ": " hardwareUUIDOutput);
  do serialNumberOutput <- probe (cmd_profiler "Serial Number");
  run assign "serialNumber" (second ": " serialNumberOutput);
  do modelOutput <- probe (cmd_profiler "Model Identifier");
  assign "modelIdentifier" (second ": " modelOutput).

(** [try { ... } catch (e) { }] *)
Definition swallow (body : M Frame unit) : M Frame unit :=
  try_catch body (fun _ => ret tt).

Definition getSystemInfo : M Machine object :=
  in_frame (
    do platform_ <- lift (os_call "platform" platform);
    do release_ <- lift (os_call "release" release);
    do type_ <- lift (os_call "type" type);
    do arch_ <- lift (os_call "arch" arch);
    do cpus_ <- lift (os_call "cpus" cpus);
    do cpus0 <- lift (os_call "cpus" cpus);
    do totalMemory <- lift (os_call "totalmem" totalmem);
    do hostname_ <- lift (os_call "hostname" hostname);
    do macs <- lift getNetworkMACs;
    do homedir_ <- lift (os_call "homedir" homedir);
    run init_info
      [ ("platform", VString platform_);
        ("release", VString release_);
        ("type", VString type_);
        ("arch", VString arch_);
        ("cpus", VNumber (N.of_nat (List.length cpus_)));
        ("cpuModel", VString (or_empty (option_map model (List.head cpus0))));
        ("totalMemory", VNumber totalMemory);
        ("hostname", VString hostname_);
        ("networkInterfaces", VStrings macs);
        ("homedir", VString homedir_) ];
    do p1 <- lift (os_call "platform" platform);
    run when (String.eqb p1 "win32") (swallow windows_probes);
    do p2 <- lift (os_call "platform" platform);
    run when (String.eqb p2 "linux") (swallow linux_probes);
    do p3 <- lift (os_call "platform" platform);
    run when (String.eqb p3 "darwin") (swallow darwin_probes);
    get_info).

(** ** [hashString], [generateID], [verifyID] *)

Definition hashString (str : string) : string := Sha256.sha256_hex str.

(** [0o600]: read and write for the owner, nothing for group and
    others. *)
Definition mode_0o600 : Z := 6 * 64.

Definition generateID : M Machine string :=
  do file <- this_storageFile;
  do stored <-
    try_catch
      (do there <- existsSync file;
       if there
       then (do content <- readFileSync file;
             run set_userID content;
             ret (Some content))
       else ret None)
      (fun e =>
         run console_error "Error leyendo ID almacenado:" e;
         ret None);
  match stored with
  | Some id => ret id
  | None =>
      do systemInfo <- getSystemInfo;
      let infoString := stringify systemInfo in
      let id := hashString infoString in
      run set_userID id;
      run try_catch
            (writeFileSync file id mode_0o600)
            (fun e => console_error "Error al guardar ID en archivo:" e);
      ret id
  end.

Definition verifyID : M Machine bool :=
  do file <- this_storageFile;
  try_catch
    (do there <- existsSync file;
     if negb there then ret false
     else
       do storedID <- readFileSync file;
       if String.eqb storedID "" then ret false
       else ret true)
    (fun e =>
       run console_error "Error verificando ID:" e;
       ret false).

(** ** The constructor and [getUniqueUserID] *)

Definition new_generator (w : World) : Machine :=
  let w' := log (OsCall "homedir") w in
  Mk_Machine (Mk_Generator None (path_join w (homedir (os w)) ".unique_hw_id")) w'.

Definition getUniqueUserID (w : World) : result string * World :=
  match generateID (new_generator w) with
  | (r, m) => (r, world m)
  end.

End UniqueUserID.

(* ===================================================================== *)
(** * generate-id/generateID.mjs                                         *)
(* ===================================================================== *)

Module GenerateID.
Import Js Js.Notations.

(** ** Numbers

    [Math.random()] is a binary64 float; [maxLength] and the lengths
    derived from it are integers.  [number] is the float nearest to an
    integer, the integer itself wherever a float can hold it. *)
Definition floor (f : float) : Z :=
  match Prim2SF f with
  | S754_finite s m e =>
      let v := if s then Z.neg m else Z.pos m in
      if 0 <=? e then v * 2 ^ e else v / 2 ^ (- e)
  | _ => 0
  end.

Definition number (z : Z) : float :=
  SF2Prim (binary_normalize prec emax z 0 false).

(** ** The runtime: the random sources and the clock

    Each source is the sequence of the answers it will give, with the
    number of answers already taken.  [getRandomValues] is [None] where
    the global [crypto] is not defined. *)
Record Runtime : Type := Mk_Runtime
  { Math_random : nat -> float;
    Date_now : nat -> Z;
    getRandomValues : option (nat -> Z);
    randoms_taken : nat;
    clocks_taken : nat;
    bytes_taken : nat }.

(** The fields of a [GenerateID]. *)
Record Self : Type := Mk_Self
  { maxLength : Z;
    minLength : Z }.

Record Machine : Type := Mk_Machine
  { this : Self;
    runtime : Runtime }.

(** [new GenerateID(options)]: [options.maxLength || 8]. *)
Definition constructor (options_maxLength : option Z) : Self :=
  Mk_Self (match options_maxLength with
           | Some n => if n =? 0 then 8 else n
           | None => 8
           end)
          4.

Definition random : M Machine float :=
  fun m =>
    let r := runtime m in
    (Ok (Math_random r (randoms_taken r)),
     Mk_Machine (this m)
       (Mk_Runtime (Math_random r) (Date_now r) (getRandomValues r)
                   (S (randoms_taken r)) (clocks_taken r) (bytes_taken r))).

Definition now : M Machine Z :=
  fun m =>
    let r := runtime m in
    (Ok (Date_now r (clocks_taken r)),
     Mk_Machine (this m)
       (Mk_Runtime (Math_random r) (Date_now r) (getRandomValues r)
                   (randoms_taken r) (S (clocks_taken r)) (bytes_taken r))).

(** One byte of [crypto.getRandomValues(new Uint8Array(1))], when the
    global exists. *)
Definition random_byte : M Machine (option Z) :=
  fun m =>
    let r := runtime m in
    match getRandomValues r with
    | None => (Ok None, m)
    | Some bytes =>
        (Ok (Some (bytes (bytes_taken r) mod 256)),
         Mk_Machine (this m)
           (Mk_Runtime (Math_random r) (Date_now r) (getRandomValues r)
                       (randoms_taken r) (clocks_taken r) (S (bytes_taken r))))
    end.

(** ** [generate] *)

(** An option is [undefined] or a boolean. *)
Record Options : Type := Mk_Options
  { includeTimestamp : option bool;
    includeSpecialChars : option bool;
    useUppercase : option bool }.

Definition no_options : Options := Mk_Options None None None.

Definition str_length (s : string) : Z := Z.of_nat (String.length s).

(** [Math.floor(Math.random() * n)] *)
Definition random_below (n : Z) : M Machine Z :=
  do r <- random; ret (floor (PrimFloat.mul r (number n))).

Fixpoint random_chars (chars : string) (count : nat) (id : string)
  : M Machine string :=
  match count with
  | O => ret id
  | S count' =>
      do i <- random_below (str_length chars);
      random_chars chars count' (id ++ charAt chars i)%string
  end.

Definition generate (options : Options) : M Machine string :=
  let includeTimestamp_ := default true (includeTimestamp options) in
  let includeSpecialChars_ := default false (includeSpecialChars options) in
  let useUppercase_ := default true (useUppercase options) in
  let chars := "abcdefghijklmnopqrstuvwxyz0123456789" in
  let chars :=
    if useUppercase_ then (chars ++ "ABCDEFGHIJKLMNOPQRSTUVWXYZ")%string
    else chars in
  let chars :=
    if includeSpecialChars_ then (chars ++ "_-.$#@!%&")%string else chars in
  do m <- get;
  let self := this m in
  do r <- random_below (maxLength self);
  let finalLength :=
    Z.max (minLength self) (Z.min (maxLength self) (r + minLength self)) in
  do id <- random_chars chars (Z.to_nat finalLength) "";
  do id <-
    (if includeTimestamp_
     then
       do t <- now;
       let timestamp := toString36 t in
       ret (substring id 0 (Some (finalLength / 2)) ++
            substring timestamp (str_length timestamp - 3) None ++
            substring id (finalLength / 2) (Some (finalLength - 3)))%string
     else ret id);
  do b <- random_byte;
  match b with
  | Some byte =>
      let additionalChar := charAt chars (byte mod str_length chars) in
      ret (additionalChar ++ substring id 0 (Some (str_length id - 1)))%string
  | None => ret id
  end.

(** ** [exists] *)

(** The values a collection is made of. *)
#[local] Set Warnings "-register-all".
Inductive jsval : Type :=
| JUndefined
| JNull
| JBoolean (b : bool)
| JNumber (n : Z)
| JString (s : string)
| JArray (items : list jsval)
| JObject (props : list (string * jsval)).

(** [typeof v === 'object'] *)
Definition typeof_object (v : jsval) : bool :=
  match v with
  | JNull | JArray _ | JObject _ => true
  | _ => false
  end.

(** Truthiness, as [item && ...] tests it. *)
Definition truthy (v : jsval) : bool :=
  match v with
  | JUndefined | JNull => false
  | JBoolean b => b
  | JNumber n => negb (n =? 0)
  | JString s => negb (String.eqb s "")
  | JArray _ | JObject _ => true
  end.

Fixpoint lookup_prop (k : string) (props : list (string * jsval)) : jsval :=
  match props with
  | [] => JUndefined
  | (k', v) :: rest => if String.eqb k' k then v else lookup_prop k rest
  end.

(** The element whose index is written [k], if any. *)
Fixpoint lookup_index {A} (k : string) (i : N) (l : list A) : option A :=
  match l with
  | [] => None
  | x :: rest => if String.eqb (dec i) k then Some x
                 else lookup_index k (N.succ i) rest
  end.

(** [item[field]].  A property that is not the item's own is read from
    its prototype, where it is a function or an object: as [undefined],
    it is never [===] to a string. *)
Definition get_prop (item : jsval) (field : string) : result jsval :=
  match item with
  | JUndefined | JNull =>
      Throw (TypeError "Cannot read properties of undefined or null")
  | JBoolean _ | JNumber _ => Ok JUndefined
  | JString s =>
      if String.eqb field "length"
      then Ok (JNumber (Z.of_nat (List.length (units s))))
      else match lookup_index field 0 (units s) with
           | Some u => Ok (JString u)
           | None => Ok JUndefined
           end
  | JArray items =>
      if String.eqb field "length"
      then Ok (JNumber (Z.of_nat (List.length items)))
      else match lookup_index field 0 items with
           | Some v => Ok v
           | None => Ok JUndefined
           end
  | JObject props => Ok (lookup_prop field props)
  end.

(** [v === id], [id] a string *)
Definition is_string (id : string) (v : jsval) : bool :=
  match v with
  | JString s => String.eqb s id
  | _ => false
  end.

(** [items.some(pred)], [pred] possibly throwing *)
Fixpoint some (pred : jsval -> result bool) (items : list jsval)
  : result bool :=
  match items with
  | [] => Ok false
  | item :: rest =>
      match pred item with
      | Ok true => Ok true
      | Ok false => some pred rest
      | Throw e => Throw e
      end
  end.

Definition has_id (idField id : string) (item : jsval) : result bool :=
  match get_prop item idField with
  | Ok v => Ok (is_string id v)
  | Throw e => Throw e
  end.

Definition exists_ (id : string) (collection : jsval) (idField : string)
  : result bool :=
  match collection with
  | JArray items =>
      if typeof_object (List.nth 0 items JUndefined)
      then some (has_id idField id) items
      else Ok (List.existsb (is_string id) items)
  | JObject props =>
      if List.existsb (fun kv => String.eqb (fst kv) id) props then Ok true
      else some (fun item =>
                   if truthy item && typeof_object item
                   then has_id idField id item
                   else Ok false)
                (List.map snd props)
  | JNull =>
      Throw (TypeError "Cannot convert undefined or null to object")
  | _ => Ok false
  end.

(** ** [generateUnique] *)

Definition maxAttempts : Z := 100.

Definition check (id : string) (collection : jsval) (idField : string)
  : M Machine bool :=
  fun m => (exists_ id collection idField, m).

(** The [do ... while] loop; [fuel] is the number of further rounds the
    bound [maxAttempts] leaves. *)
Fixpoint attempt (fuel : nat) (collection : jsval) (options : Options)
         (idField : string) (attempts : Z) : M Machine (string * Z) :=
  do newId <- generate options;
  let attempts := attempts + 1 in
  do taken <- check newId collection idField;
  if taken && (attempts <? maxAttempts)
  then match fuel with
       | S fuel' => attempt fuel' collection options idField attempts
       | O => ret (newId, attempts)
       end
  else ret (newId, attempts).

Definition extend : M Machine unit :=
  modify (fun m =>
    Mk_Machine (Mk_Self (maxLength (this m) + 2) (minLength (this m)))
               (runtime m)).

Definition generateUnique (collection : jsval) (options : Options)
           (idField : string) : M Machine string :=
  do found <- attempt (Z.to_nat maxAttempts) collection options idField 0;
  let '(newId, attempts) := found in
  if maxAttempts <=? attempts
  then
    let extendedOptions := options in
    run extend;
    generate extendedOptions
  else ret newId.

End GenerateID.

(* ===================================================================== *)
(** * What the fingerprint holds, stated without the monad               *)
(* ===================================================================== *)

Module Fingerprint.
Import Js UniqueUserID.

(** A platform probe: the command, the field it fills, and what is kept
    of the trimmed output. *)
Record probe_row : Type := Row
  { command : string;
    field : string;
    keep : string -> string }.

Definition windows_table : list probe_row :=
  [ Row "wmic diskdrive get SerialNumber" "diskSerial" (second LF);
    Row "wmic bios get SerialNumber" "biosSerial" (second LF);
    Row "wmic csproduct get UUID" "motherboardUUID" (second LF);
    Row "wmic cpu get ProcessorId" "cpuId" (second LF) ].

Definition linux_table : list probe_row :=
  [ Row "cat /sys/class/dmi/id/product_uuid 2>/dev/null" "systemUUID" id;
    Row "cat /sys/class/dmi/id/board_serial 2>/dev/null" "motherboardSerial" id;
    Row cmd_cpuinfo "cpuDetails" id;
    Row "lsblk -no UUID $(findmnt -n -o SOURCE /)" "mainDiskUUID" id ].

Definition darwin_table : list probe_row :=
  [ Row (cmd_profiler "Hardware UUID") "hardwareUUID" (second ": ");
    Row (cmd_profiler "Serial Number") "serialNumber" (second ": ");
    Row (cmd_profiler "Model Identifier") "modelIdentifier" (second ": ") ].

Definition platform_table (p : string) : list probe_row :=
  if String.eqb p "win32" then windows_table
  else if String.eqb p "linux" then linux_table
  else if String.eqb p "darwin" then darwin_table
  else [].

(** The rows are run in order until one fails. *)
Fixpoint run_table (ex : string -> option string) (table : list probe_row)
         (o : object) : object * list event :=
  match table with
  | [] => (o, [])
  | r :: rest =>
      match ex (command r) with
      | None => (o, [ExecSync (command r)])
      | Some out =>
          let '(o', evs) :=
            run_table ex rest (set_field (field r) (VString (keep r (trim out))) o) in
          (o', ExecSync (command r) :: evs)
      end
  end.

Definition universal_keys : list string :=
  [ "platform"; "release"; "type"; "arch"; "cpus"; "cpuModel";
    "totalMemory"; "hostname"; "networkInterfaces"; "homedir" ].

Definition universal_info (o : OS) : object :=
  [ ("platform", VString (platform o));
    ("release", VString (release o));
    ("type", VString (type o));
    ("arch", VString (arch o));
    ("cpus", VNumber (N.of_nat (List.length (cpus o))));
    ("cpuModel", VString (or_empty (option_map model (List.head (cpus o)))));
    ("totalMemory", VNumber (totalmem o));
    ("hostname", VString (hostname o));
    ("networkInterfaces", VStrings (sort (collect_macs (networkInterfaces o))));
    ("homedir", VString (homedir o)) ].

Definition universal_events : list event :=
  List.map OsCall
    [ "platform"; "release"; "type"; "arch"; "cpus"; "cpus"; "totalmem";
      "hostname"; "networkInterfaces"; "homedir" ].

Definition system_info (o : OS) (ex : string -> option string) : object :=
  fst (run_table ex (platform_table (platform o)) (universal_info o)).

Definition table_events (ex : string -> option string) (o : OS)
           (p : string) (table : list probe_row) : list event :=
  (OsCall "platform" ::
   (if String.eqb (platform o) p
    then snd (run_table ex table (universal_info o)) else []))%list.

Definition system_events (o : OS) (ex : string -> option string) : list event :=
  (universal_events ++
   table_events ex o "win32" windows_table ++
   table_events ex o "linux" linux_table ++
   table_events ex o "darwin" darwin_table)%list.

(** A digest as [digest('hex')] renders it: 64 characters among
    [0-9a-f]. *)
Definition is_hex_digit (c : ascii) : bool :=
  let n := N_of_ascii c in
  ((48 <=? n) && (n <=? 57) || (97 <=? n) && (n <=? 102))%N.

Definition is_digest (s : string) : bool :=
  (String.length s =? 64)%nat &&
  List.forallb is_hex_digit (list_ascii_of_string s).

(** The machine after the calls of [evs], on the file system [f]. *)
Definition after (evs : list event) (f : FileSys) (w : World) : World :=
  Mk_World (os w) (exec w) (path_join w) f (trace w ++ evs).

(** A [try] block over a table: each row is a probe and an assignment. *)
Definition table_block (table : list probe_row) : M Frame unit :=
  fold_right
    (fun r rest =>
       bind (probe (command r)) (fun out =>
       bind (assign (field r) (keep r out)) (fun _ => rest)))
    (ret tt) table.

(** The identifier a first run computes. *)
Definition fresh_id (w : World) : string :=
  hashString (stringify (system_info (os w) (exec w))).

(** The calls of the first [try] block when it yields no identifier. *)
Definition read_failure (f : FileSys) (file : string) (e : error)
  : list event :=
  (ExistsSync file ::
   (if fs_exists f file
    then [ReadFileSync file; ConsoleError "Error leyendo ID almacenado:" e]
    else []))%list.

(** The file system after the second [try] block, and what it logs. *)
Definition write_outcome (f : FileSys) (file id : string)
  : FileSys * list event :=
  match fs_write f file id mode_0o600 with
  | Ok f' => (f', [])
  | Throw e => (f, [ConsoleError "Error al guardar ID en archivo:" e])
  end.

(** The order of the default [sort]. *)
Definition le (a b : string) : Prop := String.leb a b = true.

(** The addresses the two loops of [getNetworkMACs] push. *)
Definition wanted (d : details) : bool :=
  negb (internal d) && negb (String.eqb (mac d) zero_mac).

Definition pushed (iface : string * list details) : list string :=
  List.map mac (List.filter wanted (snd iface)).

(** The same machine, its interfaces enumerated as [ifs]. *)
Definition with_interfaces (ifs : list (string * list details))
           (m : Machine) : Machine :=
  let w := world m in
  let o := os w in
  Mk_Machine (this m)
    (Mk_World
       (Os (platform o) (release o) (type o) (arch o) (cpus o) (totalmem o)
           (hostname o) ifs (homedir o))
       (exec w) (path_join w) (fs w) (trace w)).

(** Whether the probe of a row answers. *)
Definition answers (ex : string -> option string) (r : probe_row) : bool :=
  match ex (command r) with Some _ => true | None => false end.

(** The identifier is in the file, and the file can be read. *)
Definition persisted (f : FileSys) (file : string) : Prop :=
  exists c, fs_read f file = Ok c.

(** Runs the monadic code of a method on the machine of the goal. *)
Ltac run :=
  cbv [bind lift os_call emit modify get ret on_world throw try_catch
       existsSync readFileSync writeFileSync console_error set_userID
       this_storageFile getNetworkMACs init_info get_info machine info
       world this os log exec fs trace path_join after in_frame
       storageFile userID with_fs].

End Fingerprint.

(* ===================================================================== *)
(** * Concrete machines                                                  *)
(* ===================================================================== *)

Module Scenario.
Import Js UniqueUserID Fingerprint.

Definition join (a b : string) : string := (a ++ "/" ++ b)%string.

Definition interfaces : list (string * list details) :=
  [ ("lo", [Details zero_mac true]);
    ("eth0", [Details "52:54:00:aa:bb:02" false;
              Details "52:54:00:aa:bb:02" false]);
    ("wlan0", [Details "52:54:00:aa:bb:01" false]) ].

Definition laptop : OS :=
  Os "linux" "6.8.0" "Linux" "x64" [Cpu "Ryzen 7"; Cpu "Ryzen 7"]
     17179869184 "laptop" interfaces "/home/u".

(** A machine on which [os.cpus()] is empty. *)
Definition headless : OS :=
  Os "linux" "6.8.0" "Linux" "arm64" [] 1073741824 "board" [] "/home/u".

Definition file : string := "/home/u/.unique_hw_id".

Definition exec_ok (cmd : string) : option string :=
  Some ("  value-of: " ++ cmd ++ LF)%string.

(** Every command answers but [bad], which is not found. *)
Definition exec_without (bad : string) (cmd : string) : option string :=
  if String.eqb cmd bad then None else exec_ok cmd.

Definition empty_disk : FileSys := Fs ∅ ∅ ∅ EACCES.

Definition disk_with (content : string) : FileSys :=
  Fs {[ file := Regular content mode_0o600 ]} ∅ ∅ EACCES.

(** The home directory cannot be written. *)
Definition readonly_disk : FileSys := Fs ∅ ∅ {[ file ]} EACCES.

(** The file holds an identifier, and belongs to another user: the
    process may not read it. *)
Definition unreadable_disk : FileSys :=
  Fs {[ file := Regular "abc123" mode_0o600 ]} {[ file ]} {[ file ]} EACCES.

(** The file holds an identifier; its permission bits let the process
    write it and not read it. *)
Definition mode_0o200 : Z := 2 * 64.

Definition writeonly_disk : FileSys :=
  Fs {[ file := Regular "abc123" mode_0o200 ]} {[ file ]} ∅ EACCES.

(** The home directory itself is missing. *)
Definition homeless_disk : FileSys := Fs ∅ ∅ {[ file ]} ENOENT.

Definition boot (o : OS) (ex : string -> option string) (f : FileSys)
  : Machine :=
  new_generator (Mk_World o ex join f []).

Definition product_uuid : string :=
  "cat /sys/class/dmi/id/product_uuid 2>/dev/null".

(** A runtime whose random sources always answer zero. *)
Definition stuck_runtime : GenerateID.Runtime :=
  GenerateID.Mk_Runtime (fun _ => 0%float) (fun _ => 1700000000000)
                        (Some (fun _ => 0)) 0 0 0.

Definition taken_ids : GenerateID.jsval :=
  GenerateID.JArray [GenerateID.JString "aaaa"].

Definition no_timestamp : GenerateID.Options :=
  GenerateID.Mk_Options (Some false) None None.

End Scenario.

(* ===================================================================== *)
(** * The vocabulary of further statements                               *)
(* ===================================================================== *)

Module GenerateSpec.
Import Js GenerateID.

(** Every character of [s] is one of [alpha]. *)
Definition within (alpha s : string) : Prop :=
  List.Forall (fun c => In c (list_ascii_of_string alpha)) (list_ascii_of_string s).

(** The characters [generate] draws from, as its options select them. *)
Definition alphabet (options : Options) : string :=
  let chars := "abcdefghijklmnopqrstuvwxyz0123456789" in
  let chars :=
    if default true (useUppercase options)
    then (chars ++ "ABCDEFGHIJKLMNOPQRSTUVWXYZ")%string else chars in
  if default false (includeSpecialChars options)
  then (chars ++ "_-.$#@!%&")%string else chars.

(** Every [Math.floor(Math.random() * n)] of the runtime is an index
    below [n], as it is when [Math.random()] is in [[0, 1)]. *)
Definition in_range (rt : Runtime) (n : Z) : Prop :=
  forall k, 0 <= floor (PrimFloat.mul (Math_random rt k) (number n)) < n.

(** [finalLength], from the first random draw. *)
Definition finalLength (m : Machine) : Z :=
  let self := this m in
  let rt := runtime m in
  let r := floor (PrimFloat.mul (Math_random rt (randoms_taken rt))
                                (number (maxLength self))) in
  Z.max (minLength self) (Z.min (maxLength self) (r + minLength self)).

(** The same object and the same sources; only the counts may differ. *)
Definition same_sources (m m' : Machine) : Prop :=
  this m' = this m /\
  Math_random (runtime m') = Math_random (runtime m) /\
  Date_now (runtime m') = Date_now (runtime m) /\
  getRandomValues (runtime m') = getRandomValues (runtime m).

(** The two rewritings of the random part: the timestamp mixed in, and
    the leading character drawn from [crypto]. *)
Definition mix_timestamp (fl : Z) (id timestamp : string) : string :=
  (substring id 0 (Some (fl / 2)) ++
   substring timestamp (str_length timestamp - 3) None ++
   substring id (fl / 2) (Some (fl - 3)))%string.

Definition lead_with (chars : string) (byte : Z) (id : string) : string :=
  (charAt chars (byte mod str_length chars) ++
   substring id 0 (Some (str_length id - 1)))%string.

(** What [generate] returns, from the random part [id0]. *)
Definition assemble (options : Options) (m : Machine) (id0 : string) : string :=
  let rt := runtime m in
  let id1 :=
    if default true (includeTimestamp options)
    then mix_timestamp (finalLength m) id0
                       (toString36 (Date_now rt (clocks_taken rt)))
    else id0 in
  match getRandomValues rt with
  | Some bytes => lead_with (alphabet options) (bytes (bytes_taken rt) mod 256) id1
  | None => id1
  end.

(** [item] is an object or an array whose [idField] is the string [id]. *)
Definition holds_id (idField id : string) (item : jsval) : Prop :=
  truthy item = true /\ typeof_object item = true /\
  get_prop item idField = Ok (JString id).

(** [collection] is [null], or an array whose first element is [null]. *)
Definition null_led (collection : jsval) : Prop :=
  collection = JNull \/ exists rest, collection = JArray (JNull :: rest).

(** A generator whose [maxLength] is 4, on the runtime that always
    answers zero. *)
Definition short_ids : Machine :=
  Mk_Machine (constructor (Some 4)) Scenario.stuck_runtime.

(** A runtime without [crypto] that answers zero but for the five draws
    of the hundredth [generate], and a generator on it. *)
Definition late_runtime : Runtime :=
  Mk_Runtime
    (fun k => if (Nat.ltb k 495 || Nat.leb 500 k)%bool then 0%float
              else 0.03125%float)
    (fun _ => 1700000000000) None 0 0 0.

Definition late : Machine := Mk_Machine (constructor None) late_runtime.

End GenerateSpec.

Module MachineSpec.
Import Js UniqueUserID Fingerprint.

(** The calls of [verifyID]. *)
Definition verify_events (f : FileSys) (file : string) : list event :=
  (ExistsSync file ::
   (if fs_exists f file
    then ReadFileSync file ::
         match fs_read f file with
         | Ok _ => []
         | Throw e => [ConsoleError "Error verificando ID:" e]
         end
    else []))%list.

(** The fields a table assigns when every row answers. *)
Definition table_fields (ex : string -> option string)
           (table : list probe_row) (o : object) : object :=
  fold_left
    (fun o' r =>
       set_field (field r)
         (VString (keep r (trim (default "" (ex (command r)))))) o')
    table o.

(** [s] is a single line: it holds no line feed. *)
Definition one_line (s : string) : Prop :=
  List.Forall (fun c => c <> ascii_of_N 10) (list_ascii_of_string s).

(** A Windows machine, and a [wmic] that lists two drives. *)
Definition desktop : OS :=
  Os "win32" "10.0.19045" "Windows_NT" "x64" [Cpu "Core i5"] 8589934592
     "desktop" [] "C:/Users/u".

Definition wmic (cmd : string) : option string :=
  Some ("SerialNumber  " ++ LF ++ "WD-1  " ++ LF ++ "WD-2  " ++ LF)%string.

End MachineSpec.

(* ===================================================================== *)
(** * SHA-256: test vectors and the shape of a digest                    *)
(* ===================================================================== *)

Module DigestFacts.
Import Js UniqueUserID Fingerprint.

Example sha256_empty :
  Sha256.sha256_hex "" =
  "e3b0c44298fc1c149afbf4c8996fb92427ae41e4649b934ca495991b7852b855".
Proof. vm_compute. reflexivity. Qed.

Example sha256_abc :
  Sha256.sha256_hex "abc" =
  "ba7816bf8f01cfea414140de5dae2223b00361a396177a9cb410ff61f20015ad".
Proof. vm_compute. reflexivity. Qed.

Example sha256_two_blocks :
  Sha256.sha256_hex
    "abcdbcdecdefdefgefghfghighijhijkijkljklmklmnlmnomnopnopq" =
  "248d6a61d20638b8e5c026930c3e6039a33ce45964ff2167f6ecedd419db06c1".
Proof. vm_compute. reflexivity. Qed.

Example first_constants :
  List.firstn 2 Sha256.K = [0x428a2f98; 0x71374491] /\
  Sha256.ra Sha256.H0 = 0x6a09e667 /\ Sha256.rh Sha256.H0 = 0x5be0cd19.
Proof. repeat split. Qed.

Lemma nibble_range (x k : Z) : 0 <= Sha256.nibble x k < 16.
Proof.
  unfold Sha256.nibble. change 15 with (Z.ones 4).
  rewrite Z.land_ones by lia. apply Z.mod_pos_bound. reflexivity.
Qed.

Lemma hex_digit_ok (n : Z) :
  0 <= n < 16 -> is_hex_digit (Sha256.hex_digit n) = true.
Proof.
  intros H. set (k := Z.to_nat n).
  assert (E : n = Z.of_nat k) by lia.
  assert (B : (k < 16)%nat) by lia.
  rewrite E. clear -B.
  do 16 (destruct k as [|k]; [reflexivity|]). lia.
Qed.

Lemma hex8_ok (x : Z) :
  List.length (Sha256.hex8 x) = 8%nat /\
  forallb is_hex_digit (Sha256.hex8 x) = true.
Proof.
  split; [reflexivity|].
  unfold Sha256.hex8. cbn [map forallb].
  rewrite !hex_digit_ok by apply nibble_range. reflexivity.
Qed.

Lemma length_string_of_list (l : list ascii) :
  String.length (string_of_list_ascii l) = List.length l.
Proof. induction l as [|c l IH]; simpl; congruence. Qed.

(** Whatever is hashed, the identifier is 64 lowercase hexadecimal
    characters. *)
Lemma hashString_is_digest (str : string) :
  is_digest (hashString str) = true.
Proof.
  unfold is_digest, hashString, Sha256.sha256_hex, Sha256.hex.
  generalize (Sha256.digest str). intros r.
  rewrite length_string_of_list, list_ascii_of_string_of_list_ascii.
  rewrite !List.length_app, !forallb_app.
  repeat match goal with
         | |- context [List.length (Sha256.hex8 ?x)] =>
             rewrite (proj1 (hex8_ok x))
         | |- context [forallb is_hex_digit (Sha256.hex8 ?x)] =>
             rewrite (proj2 (hex8_ok x))
         end.
  reflexivity.
Qed.

(** [0o600] grants the owner reading and writing and nobody else
    anything. *)
Lemma mode_owner_only :
  mode_0o600 = 384 /\
  Z.testbit mode_0o600 8 = true /\ Z.testbit mode_0o600 7 = true /\
  Z.land mode_0o600 127 = 0.
Proof. repeat split. Qed.

End DigestFacts.

(* ===================================================================== *)
(** * The default sort and the collection of MAC addresses              *)
(* ===================================================================== *)

Module SortFacts.
Import Js UniqueUserID Fingerprint.

Lemma ascii_compare_trans (a b c : ascii) :
  Ascii.compare a b = Lt -> Ascii.compare b c = Lt -> Ascii.compare a c = Lt.
Proof. unfold Ascii.compare. rewrite !N.compare_lt_iff. lia. Qed.

Lemma le_trans (a b c : string) : le a b -> le b c -> le a c.
Proof.
  unfold le, String.leb. revert b c.
  induction a as [|x a IH]; intros [|y b] [|z c]; simpl; try easy.
  destruct (Ascii.compare x y) eqn:XY; try easy.
  - apply Ascii.compare_eq_iff in XY. subst y.
    destruct (Ascii.compare x z) eqn:XZ; try easy. apply IH.
  - destruct (Ascii.compare y z) eqn:YZ; try easy.
    + apply Ascii.compare_eq_iff in YZ. subst z. now rewrite XY.
    + now rewrite (ascii_compare_trans _ _ _ XY YZ).
Qed.

Lemma le_antisym (a b : string) : le a b -> le b a -> a = b.
Proof. unfold le. intros H1 H2. apply String.leb_antisym; assumption. Qed.

Lemma le_total (a b : string) : String.leb a b = false -> le b a.
Proof.
  unfold le. intros H. destruct (String.leb_total a b) as [T|T]; congruence.
Qed.

Lemma insert_sorted_perm (x : string) (l : list string) :
  Permutation (insert_sorted x l) (x :: l).
Proof.
  induction l as [|y l IH]; simpl; [reflexivity|].
  destruct (String.leb x y); [reflexivity|].
  rewrite IH. apply perm_swap.
Qed.

Lemma sort_perm (l : list string) : Permutation (sort l) l.
Proof.
  induction l as [|x l IH]; simpl; [reflexivity|].
  rewrite insert_sorted_perm. now rewrite IH.
Qed.

Lemma insert_sorted_sorted (x : string) (l : list string) :
  StronglySorted le l -> StronglySorted le (insert_sorted x l).
Proof.
  induction 1 as [|y l S IH F]; simpl.
  - repeat constructor.
  - destruct (String.leb x y) eqn:E.
    + constructor; [now constructor|].
      constructor; [exact E|].
      eapply List.Forall_impl; [|exact F]. intros z. now apply le_trans.
    + constructor; [exact IH|].
      rewrite insert_sorted_perm. constructor; [now apply le_total|exact F].
Qed.

Lemma sort_sorted (l : list string) : StronglySorted le (sort l).
Proof.
  induction l as [|x l IH]; simpl; [constructor|].
  now apply insert_sorted_sorted.
Qed.

(** Two sorted arrangements of the same elements are the same list. *)
Lemma sorted_unique (l l' : list string) :
  StronglySorted le l -> StronglySorted le l' -> Permutation l l' -> l = l'.
Proof.
  intros S. revert l'. induction S as [|x l S IH F]; intros l' S' P.
  - apply Permutation_nil in P. now subst.
  - destruct S' as [|x' l' S' F'].
    + apply Permutation_sym, Permutation_nil in P. discriminate.
    + assert (x = x') as <-.
      { assert (In x' (x :: l)) as [->|I] by
          (apply (Permutation_in _ (Permutation_sym P)); now left);
          [reflexivity|].
        assert (In x (x' :: l')) as [->|I'] by
          (apply (Permutation_in _ P); now left); [reflexivity|].
        rewrite List.Forall_forall in F, F'.
        apply le_antisym; auto. }
      f_equal. apply IH; [exact S'|]. now apply Permutation_cons_inv in P.
Qed.

Lemma sort_permutation (l l' : list string) :
  Permutation l l' -> sort l = sort l'.
Proof.
  intros P. apply sorted_unique; try apply sort_sorted.
  rewrite !sort_perm. exact P.
Qed.

Lemma inner_loop (ds : list details) (macs : list string) :
  fold_left
    (fun (macs : list string) d =>
       if negb (internal d) && negb (String.eqb (mac d) zero_mac)
       then (macs ++ [mac d])%list else macs) ds macs =
  (macs ++ List.map mac (List.filter wanted ds))%list.
Proof.
  revert macs. induction ds as [|d ds IH]; intros macs; simpl.
  - now rewrite app_nil_r.
  - rewrite IH. unfold wanted at 2.
    destruct (negb (internal d) && negb (String.eqb (mac d) zero_mac)); simpl;
      [now rewrite <- app_assoc|reflexivity].
Qed.

Lemma collect_macs_flat_map (ifs : list (string * list details)) :
  collect_macs ifs = List.flat_map pushed ifs.
Proof.
  unfold collect_macs.
  enough (G : forall acc,
    fold_left
      (fun (macs : list string) (iface : string * list details) =>
         fold_left
           (fun (macs : list string) d =>
              if negb (internal d) && negb (String.eqb (mac d) zero_mac)
              then (macs ++ [mac d])%list else macs) (snd iface) macs)
      ifs acc = (acc ++ List.flat_map pushed ifs)%list) by apply (G []).
  induction ifs as [|i ifs IH]; intros acc; simpl.
  - now rewrite app_nil_r.
  - rewrite IH, inner_loop. unfold pushed at 2. now rewrite <- app_assoc.
Qed.

Lemma collect_macs_permutation (ifs ifs' : list (string * list details)) :
  Permutation ifs ifs' -> Permutation (collect_macs ifs) (collect_macs ifs').
Proof.
  intros P. rewrite !collect_macs_flat_map. now apply Permutation_flat_map.
Qed.

(** Only addresses that are neither internal nor the placeholder are
    collected. *)
Lemma collect_macs_wanted (ifs : list (string * list details)) (a : string) :
  In a (collect_macs ifs) <->
  exists iface d, In iface ifs /\ In d (snd iface) /\
                  internal d = false /\ mac d <> zero_mac /\ mac d = a.
Proof.
  rewrite collect_macs_flat_map, in_flat_map. unfold pushed. split.
  - intros (iface & I & H). apply in_map_iff in H as (d & E & H).
    apply filter_In in H as (H & W). unfold wanted in W.
    apply andb_true_iff in W as [W1 W2].
    apply negb_true_iff in W1, W2. apply String.eqb_neq in W2.
    now exists iface, d.
  - intros (iface & d & I & D & N & Z & E). exists iface. split; [exact I|].
    apply in_map_iff. exists d. split; [exact E|].
    apply filter_In. split; [exact D|]. unfold wanted.
    apply String.eqb_neq in Z. now rewrite N, Z.
Qed.

End SortFacts.

(* ===================================================================== *)
(** * The methods, run                                                   *)
(* ===================================================================== *)

Module RunFacts.
Import Js UniqueUserID Fingerprint.

Lemma trace_log (w : World) (e : event) (evs : list event) :
  after evs (fs w) (log e w) = after (e :: evs) (fs w) w.
Proof. unfold after, log; simpl. now rewrite <- app_assoc. Qed.

Lemma after_nil (w : World) : after [] (fs w) w = w.
Proof. destruct w; unfold after; simpl. now rewrite app_nil_r. Qed.

(** A [try] block over a table of probes stops at the first failure and
    keeps the fields assigned so far. *)
Lemma table_block_run (table : list probe_row) (o : object)
      (g : Generator) (w : World) :
  swallow (table_block table) (Mk_Frame o (Mk_Machine g w)) =
  (Ok tt,
   Mk_Frame (fst (run_table (exec w) table o))
            (Mk_Machine g (after (snd (run_table (exec w) table o)) (fs w) w))).
Proof.
  revert o w. induction table as [|r table IH]; intros o w.
  - simpl. unfold swallow, try_catch, ret. simpl. now rewrite after_nil.
  - specialize
      (IH (set_field (field r)
             (VString (keep r (trim (default "" (exec w (command r)))))) o)
          (log (ExecSync (command r)) w)).
    unfold swallow, try_catch in *. simpl.
    unfold bind at 1. unfold probe at 1. unfold bind at 1.
    unfold lift, execSync, bind, emit, modify, get, on_world. simpl.
    destruct (exec w (command r)) as [out|] eqn:E; simpl.
    + unfold ret, assign, modify. simpl. simpl in IH.
      destruct (table_block table _) as [[[]|e] fr] eqn:B;
        inversion IH; subst;
        destruct (run_table (exec w) table _) as [o' evs]; simpl;
        now rewrite trace_log.
    + reflexivity.
Qed.

Lemma windows_probes_table : windows_probes = table_block windows_table.
Proof. reflexivity. Qed.

Lemma linux_probes_table : linux_probes = table_block linux_table.
Proof. reflexivity. Qed.

Lemma darwin_probes_table : darwin_probes = table_block darwin_table.
Proof. reflexivity. Qed.

(** A platform block under its platform test. *)
Lemma when_block (b : bool) (table : list probe_row) (o : object)
      (g : Generator) (w : World) :
  when b (swallow (table_block table)) (Mk_Frame o (Mk_Machine g w)) =
  (Ok tt,
   Mk_Frame (if b then fst (run_table (exec w) table o) else o)
            (Mk_Machine g
               (after (if b then snd (run_table (exec w) table o) else [])
                      (fs w) w))).
Proof.
  unfold when. destruct b.
  - apply table_block_run.
  - unfold ret. now rewrite after_nil.
Qed.

(** [getSystemInfo] always returns: the universal fields, then the
    fields of the platform's probes up to the first that fails. *)
Lemma getSystemInfo_run (m : Machine) :
  getSystemInfo m =
  (Ok (system_info (os (world m)) (exec (world m))),
   Mk_Machine (this m)
     (after (system_events (os (world m)) (exec (world m)))
            (fs (world m)) (world m))).
Proof.
  destruct m as [g [o ex pj f t]]. unfold getSystemInfo.
  rewrite windows_probes_table, linux_probes_table, darwin_probes_table.
  run. rewrite when_block. run. rewrite when_block. run.
  rewrite when_block. run.
  unfold system_info, system_events, table_events, platform_table,
    universal_events.
  fold (universal_info o).
  destruct (String.eqb_spec (platform o) "win32") as [E|_].
  { rewrite E. cbn [String.eqb Ascii.eqb Bool.eqb]. cbn [map].
    rewrite <- !app_assoc. reflexivity. }
  destruct (String.eqb_spec (platform o) "linux") as [E|_].
  { rewrite E. cbn [String.eqb Ascii.eqb Bool.eqb]. cbn [map].
    rewrite <- !app_assoc. reflexivity. }
  destruct (String.eqb (platform o) "darwin"); cbn [map];
    rewrite <- !app_assoc; reflexivity.
Qed.

Lemma read_exists (f : FileSys) (file c : string) :
  fs_read f file = Ok c -> fs_exists f file = true.
Proof.
  unfold fs_exists, fs_read. destruct (nodes f !! file); [reflexivity|discriminate].
Qed.

(** The stored identifier is returned as it is read; nothing else is
    called. *)
Lemma generateID_stored (m : Machine) (c : string) :
  fs_read (fs (world m)) (storageFile (this m)) = Ok c ->
  generateID m =
  (Ok c,
   Mk_Machine (Mk_Generator (Some c) (storageFile (this m)))
     (after [ExistsSync (storageFile (this m));
             ReadFileSync (storageFile (this m))]
            (fs (world m)) (world m))).
Proof.
  destruct m as [[u file] [o ex pj f t]]. cbn [this world fs storageFile].
  intros R. unfold generateID. run.
  rewrite (read_exists _ _ _ R), R. rewrite <- !app_assoc. reflexivity.
Qed.

(** Without a readable file, the identifier is computed and the write is
    attempted. *)
Lemma generateID_fresh (m : Machine) (e : error) :
  fs_read (fs (world m)) (storageFile (this m)) = Throw e ->
  let w := world m in
  let file := storageFile (this m) in
  let id := fresh_id w in
  generateID m =
  (Ok id,
   Mk_Machine (Mk_Generator (Some id) file)
     (after (read_failure (fs w) file e ++
             system_events (os w) (exec w) ++
             WriteFileSync file id mode_0o600 ::
             snd (write_outcome (fs w) file id))%list
            (fst (write_outcome (fs w) file id)) w)).
Proof.
  destruct m as [[u file] [o ex pj f t]]. cbn [this world fs storageFile].
  intros R. unfold generateID, read_failure, write_outcome, fresh_id. run.
  destruct (fs_exists f file) eqn:Ex.
  - rewrite R. rewrite getSystemInfo_run. run.
    destruct (fs_write f file _ mode_0o600) as [f'|e']; cbn [fst snd];
      rewrite <- !app_assoc; reflexivity.
  - rewrite getSystemInfo_run. run.
    destruct (fs_write f file _ mode_0o600) as [f'|e']; cbn [fst snd];
      rewrite <- !app_assoc; reflexivity.
Qed.

Lemma fs_read_cases (f : FileSys) (file : string) :
  (exists c, fs_read f file = Ok c) \/ (exists e, fs_read f file = Throw e).
Proof. destruct (fs_read f file) as [c|e]; eauto. Qed.

(** A file that was just written reads back as what was written. *)
Lemma read_after_write (f f' : FileSys) (file data c : string) (mode : Z) :
  fs_write f file data mode = Ok f' -> fs_read f' file = Ok c -> c = data.
Proof.
  unfold fs_write, fs_read. intros W R.
  destruct (decide (file ∈ denied_write f)); [discriminate|].
  destruct (nodes f !! file) as [[c0 m0|]|]; try discriminate;
    inversion W; subst f'; cbn [nodes denied_read] in R;
    rewrite lookup_insert_eq in R;
    destruct (decide (file ∈ denied_read f)); congruence.
Qed.


End RunFacts.

(* ===================================================================== *)
(** * The fields of a fingerprint                                        *)
(* ===================================================================== *)

Module FieldFacts.
Import Js UniqueUserID Fingerprint RunFacts DigestFacts SortFacts.

Lemma keys_set_field (k : string) (v : value) (o : object) :
  keys (set_field k v o) =
  (keys o ++ (if List.existsb (String.eqb k) (keys o) then [] else [k]))%list.
Proof.
  induction o as [|[k' v'] o IH]; [reflexivity|]. cbn [set_field keys map fst existsb].
  rewrite (String.eqb_sym k k').
  destruct (String.eqb_spec k' k) as [->|N]; cbn [keys map fst orb].
  - now rewrite app_nil_r.
  - unfold keys in IH. now rewrite IH.
Qed.

Lemma keys_set_field_new (k : string) (v : value) (o : object) :
  ~ In k (keys o) -> keys (set_field k v o) = (keys o ++ [k])%list.
Proof.
  intros N. rewrite keys_set_field.
  destruct (existsb (String.eqb k) (keys o)) eqn:E; [|reflexivity].
  apply existsb_exists in E as (k' & I & E). apply String.eqb_eq in E.
  now subst.
Qed.

Lemma get_field_set_other (k k' : string) (v : value) (o : object) :
  k <> k' -> get_field k (set_field k' v o) = get_field k o.
Proof.
  intros N. induction o as [|[k0 v0] o IH]; cbn [set_field get_field].
  - destruct (String.eqb_spec k' k); congruence.
  - destruct (String.eqb_spec k0 k') as [->|N']; cbn [get_field].
    + destruct (String.eqb_spec k' k); congruence.
    + now rewrite IH.
Qed.

(** The rows that answer before the first that fails are the ones whose
    fields are assigned. *)
Lemma run_table_prefix (ex : string -> option string)
      (before after : list probe_row) (r : probe_row) (o : object) :
  Forall (fun r' => answers ex r' = true) before ->
  answers ex r = false ->
  keys (fst (run_table ex (before ++ r :: after) o)) =
  keys (fold_left (fun o' r' => set_field (field r') (VString "") o') before o).
Proof.
  intros B F. revert o. induction B as [|b before Hb B IH]; intros o.
  - cbn. unfold answers in F. now destruct (ex (command r)).
  - cbn [app run_table fold_left]. unfold answers in Hb.
    destruct (ex (command b)) as [out|]; [|discriminate].
    specialize (IH (set_field (field b) (VString (keep b (trim out))) o)).
    destruct (run_table ex _ _) as [o' evs]. cbn [fst] in *. rewrite IH.
    clear. generalize (keep b (trim out)). intros s.
    assert (G : forall o1 o2, keys o1 = keys o2 ->
              keys (fold_left (fun o' r' => set_field (field r') (VString "") o') before o1) =
              keys (fold_left (fun o' r' => set_field (field r') (VString "") o') before o2)).
    { induction before as [|b' before IH]; intros o1 o2 E; [exact E|].
      cbn [fold_left]. apply IH. rewrite !keys_set_field. now rewrite E. }
    apply G. rewrite !keys_set_field. reflexivity.
Qed.

Lemma keys_fold_new (rows : list probe_row) (o : object) :
  List.NoDup (keys o ++ List.map field rows) ->
  keys (fold_left (fun o' r' => set_field (field r') (VString "") o') rows o) =
  (keys o ++ List.map field rows)%list.
Proof.
  revert o. induction rows as [|r rows IH]; intros o N.
  - cbn. now rewrite app_nil_r.
  - cbn [fold_left map].
    assert (X : ~ In (field r) (keys o)).
    { intros I. apply NoDup_remove_2 in N. apply N, in_or_app. now left. }
    rewrite IH; rewrite keys_set_field_new by exact X.
    + now rewrite <- app_assoc.
    + rewrite <- app_assoc. exact N.
Qed.

Lemma platform_fields_distinct (p : string) :
  List.NoDup (universal_keys ++ List.map field (platform_table p)).
Proof.
  unfold platform_table.
  destruct (String.eqb p "win32");
    [|destruct (String.eqb p "linux"); [|destruct (String.eqb p "darwin")]];
    apply NoDup_ListNoDup, (bool_decide_unpack _); vm_compute; exact I.
Qed.

Lemma run_table_keys (ex : string -> option string) (table : list probe_row)
      (o : object) :
  exists extra, keys (fst (run_table ex table o)) = (keys o ++ extra)%list.
Proof.
  revert o. induction table as [|r table IH]; intros o; cbn [run_table].
  - exists []. cbn. now rewrite app_nil_r.
  - destruct (ex (command r)) as [out|].
    + destruct (IH (set_field (field r) (VString (keep r (trim out))) o))
        as [extra E].
      destruct (run_table ex table _) as [o' evs]. cbn [fst] in *.
      rewrite E, keys_set_field, <- app_assoc. eauto.
    + exists []. cbn. now rewrite app_nil_r.
Qed.

Lemma run_table_get_other (ex : string -> option string)
      (table : list probe_row) (o : object) (k : string) :
  Forall (fun r => k <> field r) table ->
  get_field k (fst (run_table ex table o)) = get_field k o.
Proof.
  intros F. revert o. induction F as [|r table N F IH]; intros o;
    cbn [run_table]; [reflexivity|].
  destruct (ex (command r)) as [out|]; [|reflexivity].
  specialize (IH (set_field (field r) (VString (keep r (trim out))) o)).
  destruct (run_table ex table _) as [o' evs]. cbn [fst] in *.
  rewrite IH. now apply get_field_set_other.
Qed.

Lemma platform_fields_apart (p k : string) :
  In k universal_keys -> Forall (fun r => k <> field r) (platform_table p).
Proof.
  intros I. apply List.Forall_forall. intros r R E.
  pose proof (platform_fields_distinct p) as N.
  apply (in_map field) in R. rewrite <- E in R.
  revert N. generalize (List.map field (platform_table p)) R. clear -I.
  intros l R N. induction universal_keys as [|u us IH]; [easy|].
  cbn [app] in N. inversion N as [|? ? X N']; subst.
  destruct I as [->|I]; [|now apply IH].
  apply X, in_or_app. now right.
Qed.
End FieldFacts.

(* ===================================================================== *)
(** * The stored identifier: [generateID] and [verifyID]                 *)
(* ===================================================================== *)

Module Persistence.
Import Js UniqueUserID Fingerprint RunFacts DigestFacts.

(** C1 (the code departs from it).  A storage file that exists and is
    empty is not treated as absent: [generateID] returns the empty
    string it reads, which is no digest, after the two file-system calls
    and nothing else. *)
Theorem generateID_empty_file (m : Machine) :
  fs_read (fs (world m)) (storageFile (this m)) = Ok "" ->
  fst (generateID m) = Ok "" /\
  is_digest "" = false /\
  trace (world (snd (generateID m))) =
  (trace (world m) ++ [ExistsSync (storageFile (this m));
                       ReadFileSync (storageFile (this m))])%list.
Proof.
  intros R. rewrite (generateID_stored m "" R). repeat split.
Qed.

Lemma generateID_empty_file_witness :
  fst (generateID (Scenario.boot Scenario.laptop Scenario.exec_ok
                                 (Scenario.disk_with ""))) = Ok "".
Proof.
  apply (generateID_empty_file
           (Scenario.boot Scenario.laptop Scenario.exec_ok
                          (Scenario.disk_with ""))).
  vm_compute. reflexivity.
Defined.

(** C7, as the code has it.  Once the storage file holds a non-empty
    identifier that the process can read, a call returns it, leaves the
    file system as it is, content and permission bits, and calls nothing
    but [existsSync] and [readFileSync]: no write, no [os] query, no
    command. *)
Theorem generateID_stored_is_read_only (m : Machine) (c : string) :
  c <> "" ->
  fs_read (fs (world m)) (storageFile (this m)) = Ok c ->
  fst (generateID m) = Ok c /\
  fs (world (snd (generateID m))) = fs (world m) /\
  trace (world (snd (generateID m))) =
  (trace (world m) ++ [ExistsSync (storageFile (this m));
                       ReadFileSync (storageFile (this m))])%list.
Proof.
  intros _ R. rewrite (generateID_stored m c R). repeat split.
Qed.

Lemma generateID_stored_is_read_only_witness :
  fst (generateID (Scenario.boot Scenario.laptop Scenario.exec_ok
                                 (Scenario.disk_with "abc123"))) = Ok "abc123".
Proof.
  apply (generateID_stored_is_read_only
           (Scenario.boot Scenario.laptop Scenario.exec_ok
                          (Scenario.disk_with "abc123")) "abc123").
  - discriminate.
  - vm_compute. reflexivity.
Defined.

(** C7, as stated, fails.  This storage file exists and holds six
    characters, which the process may write and not read: reading it
    throws, and [generateID] runs the probes, calls [writeFileSync] and
    leaves the digest in the file in place of its content. *)
Lemma generateID_overwrites_unreadable_file :
  let m := Scenario.boot Scenario.laptop Scenario.exec_ok
                         Scenario.writeonly_disk in
  let m' := snd (generateID m) in
  storageFile (this m) = Scenario.file /\
  nodes (fs (world m)) !! Scenario.file =
    Some (Regular "abc123" Scenario.mode_0o200) /\
  fst (generateID m) = Ok (fresh_id (world m)) /\
  In (ExecSync Scenario.product_uuid) (trace (world m')) /\
  In (WriteFileSync Scenario.file (fresh_id (world m)) mode_0o600)
     (trace (world m')) /\
  nodes (fs (world m')) !! Scenario.file =
    Some (Regular (fresh_id (world m)) Scenario.mode_0o200) /\
  fresh_id (world m) <> "abc123".
Proof.
  vm_compute. repeat split; auto 30. discriminate.
Qed.



(** Whatever the file system does, [generateID] returns a string. *)
Lemma generateID_total (m : Machine) : exists id, fst (generateID m) = Ok id.
Proof.
  destruct (fs_read_cases (fs (world m)) (storageFile (this m))) as [[c R]|[e R]].
  - exists c. now rewrite (generateID_stored m c R).
  - eexists. now rewrite (generateID_fresh m e R).
Qed.

(** Where the home directory is missing, the write throws [ENOENT]:
    it is logged as such, and the digest is returned. *)
Lemma generateID_without_home :
  let m := Scenario.boot Scenario.laptop Scenario.exec_ok
                         Scenario.homeless_disk in
  fst (generateID m) = Ok (fresh_id (world m)) /\
  In (ConsoleError "Error al guardar ID en archivo:" (ENOENT Scenario.file))
     (trace (world (snd (generateID m)))) /\
  fs (world (snd (generateID m))) = Scenario.homeless_disk.
Proof.
  vm_compute. repeat split; auto 30.
Qed.

(** C5.  [generateID] never throws: a failing read or write is caught
    and logged, and the call returns a string.  When the file cannot be
    read, the string is the digest of the fingerprint collected; when
    moreover the write throws, the error is logged, the file system is
    left as it was, and the digest is returned all the same. *)
Theorem generateID_survives_fs_failures (m : Machine) :
  let file := storageFile (this m) in
  (exists id, fst (generateID m) = Ok id) /\
  (forall e, fs_read (fs (world m)) file = Throw e ->
     exists info,
       fst (getSystemInfo m) = Ok info /\
       fst (generateID m) = Ok (hashString (stringify info)) /\
       is_digest (hashString (stringify info)) = true /\
       (forall e',
          fs_write (fs (world m)) file (hashString (stringify info)) mode_0o600 =
          Throw e' ->
          In (ConsoleError "Error al guardar ID en archivo:" e')
             (trace (world (snd (generateID m)))) /\
          fs (world (snd (generateID m))) = fs (world m))).
Proof.
  intros file. split; [apply generateID_total|].
  intros e R. exists (system_info (os (world m)) (exec (world m))).
  rewrite (generateID_fresh m e R), getSystemInfo_run.
  cbn [fst snd world after trace fs]. fold file.
  split; [reflexivity|]. split; [reflexivity|].
  split; [apply hashString_is_digest|].
  intros e' W. unfold write_outcome, fresh_id. rewrite W. cbn [fst snd].
  split; [|reflexivity].
  rewrite !in_app_iff; cbn [In]; auto 10.
Qed.

Lemma generateID_survives_fs_failures_witness :
  exists info,
    fst (getSystemInfo (Scenario.boot Scenario.laptop Scenario.exec_ok
                                      Scenario.readonly_disk)) = Ok info /\
    fst (generateID (Scenario.boot Scenario.laptop Scenario.exec_ok
                                   Scenario.readonly_disk)) =
    Ok (hashString (stringify info)) /\
    fs (world (snd (generateID (Scenario.boot Scenario.laptop Scenario.exec_ok
                                              Scenario.readonly_disk)))) =
    Scenario.readonly_disk.
Proof.
  destruct (generateID_survives_fs_failures
              (Scenario.boot Scenario.laptop Scenario.exec_ok
                             Scenario.readonly_disk))
    as (_ & H).
  destruct (H (ENOENT Scenario.file)) as (info & H1 & H2 & _ & H4).
  - vm_compute. reflexivity.
  - exists info. split; [exact H1|]. split; [exact H2|].
    destruct (H4 (EACCES Scenario.file)) as [_ H5]; [|exact H5].
    unfold fs_write. vm_compute. reflexivity.
Defined.

(** C6.  After a call that left a readable storage file, the next call
    returns the same string; so does a call on any machine with that
    file system, whatever else has changed on it. *)
Theorem generateID_twice (m m1 : Machine) (id : string) :
  generateID m = (Ok id, m1) ->
  persisted (fs (world m1)) (storageFile (this m)) ->
  fst (generateID m1) = Ok id /\
  forall m2,
    fs (world m2) = fs (world m1) ->
    storageFile (this m2) = storageFile (this m) ->
    fst (generateID m2) = Ok id.
Proof.
  intros G [c P].
  assert (E : c = id /\ storageFile (this m1) = storageFile (this m)).
  { destruct (fs_read_cases (fs (world m)) (storageFile (this m)))
      as [[c0 R]|[e R]].
    - rewrite (generateID_stored m c0 R) in G. inversion G; subst.
      cbn [world after fs] in P. split; [congruence|reflexivity].
    - rewrite (generateID_fresh m e R) in G. inversion G; subst.
      cbn [world after fs] in P. unfold write_outcome in P.
      split; [|reflexivity].
      destruct (fs_write _ _ _ _) as [f'|e'] eqn:W; cbn [fst] in P.
      + eapply read_after_write; eassumption.
      + congruence. }
  destruct E as [-> S1].
  assert (A : forall m2, fs (world m2) = fs (world m1) ->
                storageFile (this m2) = storageFile (this m) ->
                fst (generateID m2) = Ok id).
  { intros m2 F S. rewrite <- F, <- S in P.
    now rewrite (generateID_stored m2 id P). }
  split; [apply A; [reflexivity|exact S1]|exact A].
Qed.

Lemma generateID_twice_witness :
  fst (generateID
         (snd (generateID (Scenario.boot Scenario.laptop Scenario.exec_ok
                                         Scenario.empty_disk)))) =
  fst (generateID (Scenario.boot Scenario.laptop Scenario.exec_ok
                                 Scenario.empty_disk)).
Proof.
  set (m := Scenario.boot Scenario.laptop Scenario.exec_ok Scenario.empty_disk).
  pose (id := fresh_id (world m)).
  destruct (generateID_twice m (snd (generateID m)) id) as [H _].
  - vm_compute. reflexivity.
  - exists id. vm_compute. reflexivity.
  - rewrite H. vm_compute. reflexivity.
Defined.

(** C8, as the code has it.  [verifyID] answers [true] exactly when the
    storage file can be read and its content is not empty, whatever the
    content; it answers [false] when the file is absent, when it is
    empty, and when reading it throws. *)
Theorem verifyID_answer (m : Machine) :
  fst (verifyID m) =
  Ok (match fs_read (fs (world m)) (storageFile (this m)) with
      | Ok c => negb (String.eqb c "")
      | Throw _ => false
      end).
Proof.
  destruct m as [[u file] [o ex pj f t]]. unfold verifyID. run.
  destruct (fs_exists f file) eqn:X; cbn [negb].
  - destruct (fs_read f file) as [c|e]; [|reflexivity].
    destruct (String.eqb c ""); reflexivity.
  - unfold fs_exists, fs_read in *.
    destruct (nodes f !! file); [discriminate|reflexivity].
Qed.

(** C8, as stated, fails: this storage file exists and holds six
    characters, yet [verifyID] answers [false], because reading it
    throws. *)
Lemma verifyID_unreadable_file :
  let m := Scenario.boot Scenario.laptop Scenario.exec_ok
                         Scenario.unreadable_disk in
  storageFile (this m) = Scenario.file /\
  nodes (fs (world m)) !! Scenario.file = Some (Regular "abc123" mode_0o600) /\
  fst (verifyID m) = Ok false.
Proof. vm_compute. repeat split. Qed.
End Persistence.

(* ===================================================================== *)
(** * The platform probes and the universal fields                       *)
(* ===================================================================== *)

Module Probes.
Import Js UniqueUserID Fingerprint RunFacts DigestFacts SortFacts FieldFacts.

(** C3, as stated, fails.  On this Linux machine the first probe alone
    fails and the three others would answer, yet the fingerprint holds
    none of the four fields. *)
Lemma failed_probe_drops_later_fields :
  let ex := Scenario.exec_without Scenario.product_uuid in
  let m := Scenario.boot Scenario.laptop ex Scenario.empty_disk in
  List.map (answers ex) (platform_table (platform (os (world m)))) =
  [false; true; true; true] /\
  exists info,
    fst (getSystemInfo m) = Ok info /\
    get_field "motherboardSerial" info = None /\
    get_field "cpuDetails" info = None /\
    get_field "mainDiskUUID" info = None.
Proof.
  cbv zeta. split; [vm_compute; reflexivity|].
  eexists. split; [vm_compute; reflexivity|]. repeat split.
Qed.

(** C3, as the code has it.  The probes of a platform share one [try]
    block: when one fails after the ones before it answered, the
    fingerprint holds the ten universal fields and the fields of the
    probes before it, neither the failing field nor any later one; and
    a first run still returns the digest of that fingerprint. *)
Theorem failed_probe_keeps_earlier_fields
        (m : Machine) (before after : list probe_row) (r : probe_row)
        (e : error) :
  platform_table (platform (os (world m))) = (before ++ r :: after)%list ->
  Forall (fun r' => answers (exec (world m)) r' = true) before ->
  answers (exec (world m)) r = false ->
  fs_read (fs (world m)) (storageFile (this m)) = Throw e ->
  exists info,
    fst (getSystemInfo m) = Ok info /\
    keys info = (universal_keys ++ List.map field before)%list /\
    fst (generateID m) = Ok (hashString (stringify info)) /\
    is_digest (hashString (stringify info)) = true.
Proof.
  intros T B F R. exists (system_info (os (world m)) (exec (world m))).
  rewrite getSystemInfo_run, (generateID_fresh m e R). cbn [fst].
  repeat split; [|apply hashString_is_digest].
  unfold system_info. rewrite T, (run_table_prefix _ _ _ _ _ B F).
  apply (keys_fold_new before (universal_info (os (world m)))).
  pose proof (platform_fields_distinct (platform (os (world m)))) as N.
  rewrite T, map_app, app_assoc in N. now apply NoDup_app_remove_r in N.
Qed.

Lemma failed_probe_keeps_earlier_fields_witness :
  exists info,
    fst (getSystemInfo
           (Scenario.boot Scenario.laptop
              (Scenario.exec_without cmd_cpuinfo) Scenario.empty_disk)) =
    Ok info /\
    keys info = (universal_keys ++ ["systemUUID"; "motherboardSerial"])%list.
Proof.
  destruct (failed_probe_keeps_earlier_fields
              (Scenario.boot Scenario.laptop
                 (Scenario.exec_without cmd_cpuinfo) Scenario.empty_disk)
              (firstn 2 linux_table) (skipn 3 linux_table)
              (Row cmd_cpuinfo "cpuDetails" id) (ENOENT Scenario.file))
    as (info & H1 & H2 & _).
  - vm_compute. reflexivity.
  - repeat constructor.
  - vm_compute. reflexivity.
  - vm_compute. reflexivity.
  - exists info. split; assumption.
Defined.

(** C10.  [getSystemInfo] never throws, and every fingerprint starts
    with the ten universal fields, with the values read from [os]; with
    no CPU listed, [cpus] is 0 and [cpuModel] the empty string. *)
Theorem getSystemInfo_universal_fields (m : Machine) :
  exists info,
    fst (getSystemInfo m) = Ok info /\
    firstn 10 (keys info) = universal_keys /\
    (forall k, In k universal_keys ->
               get_field k info = get_field k (universal_info (os (world m)))) /\
    (cpus (os (world m)) = [] ->
     get_field "cpus" info = Some (VNumber 0) /\
     get_field "cpuModel" info = Some (VString "")).
Proof.
  exists (system_info (os (world m)) (exec (world m))).
  rewrite getSystemInfo_run. cbn [fst]. unfold system_info.
  assert (G : forall k, In k universal_keys ->
            get_field k (fst (run_table (exec (world m))
                                (platform_table (platform (os (world m))))
                                (universal_info (os (world m))))) =
            get_field k (universal_info (os (world m)))).
  { intros k I. apply run_table_get_other. now apply platform_fields_apart. }
  split; [reflexivity|]. split; [|split; [exact G|]].
  - destruct (run_table_keys (exec (world m))
                (platform_table (platform (os (world m))))
                (universal_info (os (world m)))) as [extra E].
    rewrite E. reflexivity.
  - intros C. rewrite !G by (cbn; auto 10). cbn. now rewrite C.
Qed.

Lemma getSystemInfo_universal_fields_witness :
  exists info,
    fst (getSystemInfo (Scenario.boot Scenario.headless Scenario.exec_ok
                                      Scenario.empty_disk)) = Ok info /\
    get_field "cpus" info = Some (VNumber 0) /\
    get_field "cpuModel" info = Some (VString "").
Proof.
  destruct (getSystemInfo_universal_fields
              (Scenario.boot Scenario.headless Scenario.exec_ok
                             Scenario.empty_disk))
    as (info & H1 & _ & _ & H4).
  exists info. split; [exact H1|]. apply H4. reflexivity.
Defined.
End Probes.

(* ===================================================================== *)
(** * The order of the network interfaces                                *)
(* ===================================================================== *)

Module Order.
Import Js UniqueUserID Fingerprint RunFacts DigestFacts SortFacts.

Lemma getNetworkMACs_run (m : Machine) :
  fst (getNetworkMACs m) =
  Ok (sort (collect_macs (networkInterfaces (os (world m))))).
Proof. destruct m as [g [o ex pj f t]]. reflexivity. Qed.

(** C4.  If the interfaces are enumerated in another order,
    [getNetworkMACs] returns the same list, sorted, of the same
    addresses (those neither internal nor all-zero); the fingerprint,
    hence its JSON form and its hash, and the identifier returned are
    the same. *)
Theorem fingerprint_ignores_interface_order
        (m : Machine) (ifs' : list (string * list details)) :
  Permutation (networkInterfaces (os (world m))) ifs' ->
  let m' := with_interfaces ifs' m in
  (exists macs,
     fst (getNetworkMACs m) = Ok macs /\
     fst (getNetworkMACs m') = Ok macs /\
     StronglySorted le macs /\
     Permutation macs (collect_macs ifs')) /\
  (exists info,
     fst (getSystemInfo m) = Ok info /\
     fst (getSystemInfo m') = Ok info) /\
  fst (generateID m') = fst (generateID m).
Proof.
  intros P m'.
  assert (S : sort (collect_macs ifs') =
              sort (collect_macs (networkInterfaces (os (world m))))).
  { apply sort_permutation, collect_macs_permutation. now symmetry. }
  assert (U : system_info (os (world m')) (exec (world m')) =
              system_info (os (world m)) (exec (world m))).
  { unfold system_info, universal_info.
    cbn [m' with_interfaces world os exec platform release type arch cpus
         totalmem hostname homedir networkInterfaces].
    now rewrite S. }
  split; [|split].
  - exists (sort (collect_macs (networkInterfaces (os (world m))))).
    rewrite !getNetworkMACs_run. cbn [m' with_interfaces world os networkInterfaces].
    rewrite S. repeat split.
    + apply sort_sorted.
    + rewrite <- S. apply sort_perm.
  - exists (system_info (os (world m)) (exec (world m))).
    rewrite !getSystemInfo_run. cbn [fst]. now rewrite U.
  - destruct (fs_read_cases (fs (world m)) (storageFile (this m)))
      as [[c R]|[e R]].
    + rewrite (generateID_stored m c R), (generateID_stored m' c R).
      reflexivity.
    + rewrite (generateID_fresh m e R), (generateID_fresh m' e R).
      cbn [fst]. unfold fresh_id. now rewrite U.
Qed.

Lemma fingerprint_ignores_interface_order_witness :
  fst (getNetworkMACs
         (with_interfaces (List.rev Scenario.interfaces)
            (Scenario.boot Scenario.laptop Scenario.exec_ok Scenario.empty_disk))) =
  fst (getNetworkMACs
         (Scenario.boot Scenario.laptop Scenario.exec_ok Scenario.empty_disk)) /\
  fst (generateID
         (with_interfaces (List.rev Scenario.interfaces)
            (Scenario.boot Scenario.laptop Scenario.exec_ok Scenario.empty_disk))) =
  fst (generateID
         (Scenario.boot Scenario.laptop Scenario.exec_ok Scenario.empty_disk)).
Proof.
  destruct (fingerprint_ignores_interface_order
              (Scenario.boot Scenario.laptop Scenario.exec_ok Scenario.empty_disk)
              (List.rev Scenario.interfaces))
    as ((macs & H1 & H2 & _) & _ & H3).
  - apply Permutation_rev.
  - split; [congruence|exact H3].
Defined.
End Order.


(* ===================================================================== *)
(** * [generateUnique]                                                   *)
(* ===================================================================== *)

Module LoopFacts.
Import Js GenerateID.

(** The bound [maxAttempts] ends the loop before the fuel does: more
    fuel changes nothing. *)
Lemma attempt_fuel (fuel : nat) (collection : jsval) (options : Options)
      (idField : string) (attempts : Z) (m : Machine) :
  maxAttempts - 1 - attempts <= Z.of_nat fuel ->
  attempt (S fuel) collection options idField attempts m =
  attempt fuel collection options idField attempts m.
Proof.
  revert attempts m. induction fuel as [|fuel IH]; intros attempts m B.
  - cbn [attempt]. unfold bind.
    destruct (generate options m) as [[newId|e] m1]; [|reflexivity].
    unfold check. destruct (exists_ newId collection idField) as [taken|e];
      [|reflexivity].
    assert (L : (attempts + 1 <? maxAttempts) = false)
      by (apply Z.ltb_ge; unfold maxAttempts in *; lia).
    rewrite L, andb_false_r. reflexivity.
  - change (attempt (S (S fuel)) collection options idField attempts m)
      with (bind (generate options) (fun newId =>
              let attempts := attempts + 1 in
              bind (check newId collection idField) (fun taken =>
              if taken && (attempts <? maxAttempts)
              then attempt (S fuel) collection options idField attempts
              else ret (newId, attempts))) m).
    change (attempt (S fuel) collection options idField attempts m)
      with (bind (generate options) (fun newId =>
              let attempts := attempts + 1 in
              bind (check newId collection idField) (fun taken =>
              if taken && (attempts <? maxAttempts)
              then attempt fuel collection options idField attempts
              else ret (newId, attempts))) m).
    unfold bind. destruct (generate options m) as [[newId|e] m1]; [|reflexivity].
    unfold check. destruct (exists_ newId collection idField) as [taken|e];
      [|reflexivity].
    cbv zeta. destruct (taken && (attempts + 1 <? maxAttempts)); [|reflexivity].
    apply IH. lia.
Qed.

(** When the loop ends with the count at [maxAttempts], the identifier
    returned is one more [generate], with no [exists] after it. *)
Lemma generateUnique_after_last_attempt
      (collection : jsval) (options : Options) (idField : string)
      (m m' : Machine) (newId : string) :
  attempt (Z.to_nat maxAttempts) collection options idField 0 m =
  (Ok (newId, maxAttempts), m') ->
  generateUnique collection options idField m =
  generate options
    (Mk_Machine (Mk_Self (maxLength (this m') + 2) (minLength (this m')))
                (runtime m')).
Proof.
  intros A. unfold generateUnique, bind. rewrite A. reflexivity.
Qed.
End LoopFacts.

Module Collisions.
Import Js GenerateID LoopFacts.

(** C9.  [generateUnique] can return an identifier that the collection
    already holds: here each of the hundred attempts yields the one
    identifier of the collection, the loop ends on the count, and the
    identifier generated after it, which [exists] is not asked about,
    is that one again. *)
Theorem generateUnique_may_return_a_taken_id :
  exists (collection : jsval) (options : Options) (m : Machine) (id : string),
    fst (attempt (Z.to_nat maxAttempts) collection options "id" 0 m) =
    Ok (id, maxAttempts) /\
    generateUnique collection options "id" m =
    generate options
      (snd (extend (snd (attempt (Z.to_nat maxAttempts) collection options
                                 "id" 0 m)))) /\
    fst (generateUnique collection options "id" m) = Ok id /\
    exists_ id collection "id" = Ok true.
Proof.
  exists Scenario.taken_ids, Scenario.no_timestamp,
    (Mk_Machine (constructor None) Scenario.stuck_runtime), "aaaa".
  split; [vm_compute; reflexivity|].
  split; [|split; vm_compute; reflexivity].
  eapply generateUnique_after_last_attempt.
  vm_compute. reflexivity.
Qed.

End Collisions.

(* ===================================================================== *)
(** * Strings: characters and lengths                                    *)
(* ===================================================================== *)

Module Text.
Import Js GenerateSpec.

Lemma within_nil (alpha : string) : within alpha "".
Proof. constructor. Qed.

Lemma list_of_append (s t : string) :
  list_ascii_of_string (s ++ t) =
  (list_ascii_of_string s ++ list_ascii_of_string t)%list.
Proof. induction s as [|c s IH]; simpl; [reflexivity|congruence]. Qed.

Lemma within_app (alpha s t : string) :
  within alpha s -> within alpha t -> within alpha (s ++ t).
Proof.
  unfold within. rewrite list_of_append. intros. now apply List.Forall_app.
Qed.

Lemma within_wider (alpha more s : string) :
  within alpha s -> within (alpha ++ more) s.
Proof.
  unfold within. intros H. eapply List.Forall_impl; [|exact H].
  intros c I. rewrite list_of_append. apply in_or_app. now left.
Qed.

Lemma length_append (s t : string) :
  String.length (s ++ t) = (String.length s + String.length t)%nat.
Proof. induction s as [|c s IH]; simpl; [reflexivity|congruence]. Qed.

Lemma get_in (n : nat) (s : string) (c : ascii) :
  String.get n s = Some c -> In c (list_ascii_of_string s).
Proof.
  revert n. induction s as [|x s IH]; intros [|n]; simpl; try discriminate.
  - intros [= ->]. now left.
  - intros H. right. eauto.
Qed.

Lemma get_some (n : nat) (s : string) :
  (n < String.length s)%nat -> exists c, String.get n s = Some c.
Proof.
  revert n. induction s as [|x s IH]; intros [|n]; simpl; try lia.
  - eauto.
  - intros H. apply IH. lia.
Qed.

Lemma charAt_within (s : string) (i : Z) : within s (charAt s i).
Proof.
  unfold charAt. destruct (i <? 0); [constructor|].
  destruct (String.get (Z.to_nat i) s) as [c|] eqn:G; [|constructor].
  repeat constructor. eapply get_in; eassumption.
Qed.

Lemma charAt_length (s : string) (i : Z) :
  0 <= i < Z.of_nat (String.length s) -> String.length (charAt s i) = 1%nat.
Proof.
  intros H. unfold charAt.
  destruct (Z.ltb_spec i 0); [lia|].
  destruct (get_some (Z.to_nat i) s) as [c ->]; [lia|reflexivity].
Qed.

Lemma substring_within (alpha s : string) (n m : nat) :
  within alpha s -> within alpha (String.substring n m s).
Proof.
  unfold within. revert n m. induction s as [|c s IH]; intros n m H.
  - destruct n, m; constructor.
  - inversion H as [|? ? Hc Hs]; subst.
    destruct n as [|n]; simpl.
    + destruct m as [|m]; [constructor|]. simpl. constructor; [exact Hc|].
      apply (IH 0%nat m Hs).
    + apply (IH n m Hs).
Qed.

Lemma substring_length (s : string) (n m : nat) :
  (n + m <= String.length s)%nat ->
  String.length (String.substring n m s) = m.
Proof.
  revert n m. induction s as [|c s IH]; intros n m H; simpl in H.
  - destruct n, m; simpl; lia.
  - destruct n as [|n]; simpl.
    + destruct m as [|m]; [reflexivity|]. simpl. f_equal. apply (IH 0%nat). lia.
    + apply IH. lia.
Qed.

Lemma js_substring_within (alpha s : string) (a : Z) (b : option Z) :
  within alpha s -> within alpha (substring s a b).
Proof. intros H. unfold substring. now apply substring_within. Qed.

(** The length of [s.substring(a, b)] for indices within the string. *)
Lemma js_substring_length (s : string) (a b : Z) :
  0 <= a <= Z.of_nat (String.length s) ->
  0 <= b <= Z.of_nat (String.length s) ->
  Z.of_nat (String.length (substring s a (Some b))) = Z.abs (b - a).
Proof.
  intros Ha Hb. unfold substring, clamp.
  rewrite substring_length; lia.
Qed.

Lemma js_substring_from (s : string) (a : Z) :
  0 <= a <= Z.of_nat (String.length s) ->
  Z.of_nat (String.length (substring s a None)) = Z.of_nat (String.length s) - a.
Proof.
  intros Ha. unfold substring, clamp.
  rewrite substring_length; lia.
Qed.

Lemma digit36_within (n : Z) : within digits36 (charAt digits36 (n mod 36)).
Proof. apply charAt_within. Qed.

Lemma base36_go_within (fuel : nat) (n : Z) (acc : string) :
  within digits36 acc -> within digits36 (base36_go fuel n acc).
Proof.
  revert n acc. induction fuel as [|fuel IH]; intros n acc H; simpl; [exact H|].
  assert (W : within digits36 (charAt digits36 (n mod 36) ++ acc))
    by (apply within_app; [apply charAt_within|exact H]).
  destruct (n <? 36); [exact W|]. now apply IH.
Qed.

Lemma base36_go_length (fuel : nat) (n : Z) (acc : string) :
  (String.length acc <= String.length (base36_go fuel n acc))%nat.
Proof.
  revert n acc. induction fuel as [|fuel IH]; intros n acc; simpl; [lia|].
  assert (L : (String.length acc <=
               String.length (charAt digits36 (n mod 36) ++ acc))%nat)
    by (rewrite length_append; lia).
  destruct (n <? 36); [exact L|].
  etransitivity; [exact L|apply IH].
Qed.

Lemma toString36_within (t : Z) : 0 <= t -> within digits36 (toString36 t).
Proof.
  intros H. unfold toString36. destruct (Z.ltb_spec t 0); [lia|].
  apply base36_go_within. constructor.
Qed.

(** From [36^2] on, a number has at least three digits in base 36. *)
Lemma toString36_length (t : Z) :
  1296 <= t -> (3 <= String.length (toString36 t))%nat.
Proof.
  intros H. unfold toString36. destruct (Z.ltb_spec t 0); [lia|].
  unfold base36.
  assert (F : (3 <= S (Z.to_nat (Z.log2 t)))%nat).
  { assert (10 <= Z.log2 t); [|lia].
    apply Z.log2_le_pow2; [lia|]. change (2 ^ 10) with 1024. lia. }
  destruct (S (Z.to_nat (Z.log2 t))) as [|[|[|fuel]]]; try lia.
  cbn [base36_go].
  destruct (Z.ltb_spec t 36); [lia|].
  assert (36 <= t / 36) by (apply Z.div_le_lower_bound; lia).
  destruct (Z.ltb_spec (t / 36) 36); [lia|].
  assert (D : forall x, String.length (charAt digits36 (x mod 36)) = 1%nat).
  { intros x. apply charAt_length. change (Z.of_nat (String.length digits36)) with 36.
    apply Z.mod_pos_bound. lia. }
  destruct (t / 36 / 36 <? 36).
  - rewrite !length_append, !D. simpl. lia.
  - etransitivity; [|apply base36_go_length]. rewrite !length_append, !D. simpl. lia.
Qed.

End Text.

(* ===================================================================== *)
(** * [generate]: alphabet and length                                    *)
(* ===================================================================== *)

Module GenerateFacts.
Import Js GenerateID GenerateSpec Text.

(** [number] is exact on the integers a float holds, beyond [2^63] as
    below it. *)
Lemma number_exact :
  floor (number 62) = 62 /\ floor (number (-3)) = -3 /\
  floor (number (2 ^ 63)) = 2 ^ 63.
Proof. repeat split. Qed.

Lemma same_sources_refl (m : Machine) : same_sources m m.
Proof. repeat split. Qed.

Lemma same_sources_trans (a b c : Machine) :
  same_sources a b -> same_sources b c -> same_sources a c.
Proof. unfold same_sources. intuition congruence. Qed.

Lemma random_chars_run (chars : string) (count : nat) (id : string) (m : Machine) :
  exists id' m',
    random_chars chars count id m = (Ok id', m') /\
    same_sources m m' /\
    clocks_taken (runtime m') = clocks_taken (runtime m) /\
    bytes_taken (runtime m') = bytes_taken (runtime m) /\
    (forall alpha, within alpha chars -> within alpha id -> within alpha id') /\
    (in_range (runtime m) (str_length chars) ->
     String.length id' = (String.length id + count)%nat).
Proof.
  revert id m. induction count as [|count IH]; intros id m.
  - exists id, m. split; [reflexivity|]. split; [apply same_sources_refl|].
    do 2 (split; [reflexivity|]). split; [auto|]. intros _. lia.
  - cbn [random_chars]. unfold bind, random_below, random, ret. cbn.
    set (m1 := Mk_Machine _ _).
    set (i := floor _).
    destruct (IH (id ++ charAt chars i)%string m1)
      as (id' & m' & E & S & C & B & W & L).
    exists id', m'. split; [exact E|]. split; [|split; [exact C|split; [exact B|split]]].
    + eapply same_sources_trans; [|exact S]. repeat split.
    + intros alpha A H. apply W; [exact A|]. apply within_app; [exact H|].
      eapply List.Forall_impl; [|apply (charAt_within chars i)].
      intros c I. unfold within in A. rewrite List.Forall_forall in A. auto.
    + intros R. rewrite L by exact R. rewrite length_append, charAt_length; [lia|].
      apply R.
Qed.

Lemma base_within_alphabet (options : Options) :
  within (alphabet options) "abcdefghijklmnopqrstuvwxyz0123456789".
Proof.
  assert (B : within "abcdefghijklmnopqrstuvwxyz0123456789"
                     "abcdefghijklmnopqrstuvwxyz0123456789").
  { apply List.Forall_forall. auto. }
  unfold alphabet.
  destruct (default true (useUppercase options)),
           (default false (includeSpecialChars options));
    repeat apply within_wider; exact B.
Qed.

Lemma within_trans (a b s : string) : within a b -> within b s -> within a s.
Proof.
  unfold within. rewrite !List.Forall_forall. auto.
Qed.

Lemma digits_within_alphabet (options : Options) :
  within (alphabet options) digits36.
Proof.
  eapply within_trans; [apply base_within_alphabet|].
  unfold within. cbn.
  repeat (constructor; [repeat (first [left; reflexivity | right])|]).
  constructor.
Qed.

Lemma generate_shape (options : Options) (m : Machine) :
  exists id0 m',
    generate options m = (Ok (assemble options m id0), m') /\
    same_sources m m' /\
    within (alphabet options) id0 /\
    (in_range (runtime m) (str_length (alphabet options)) ->
     String.length id0 = Z.to_nat (finalLength m)).
Proof.
  unfold generate. fold (alphabet options).
  unfold bind at 1. unfold get.
  unfold bind at 1. unfold random_below, bind, random, ret.
  fold (finalLength m).
  set (m0 := Mk_Machine _ _).
  destruct (random_chars_run (alphabet options) (Z.to_nat (finalLength m)) "" m0)
    as (id0 & m1 & E & S & C & B & W & L).
  rewrite E. exists id0.
  assert (S0 : same_sources m m1).
  { eapply same_sources_trans; [|exact S]. repeat split. }
  destruct S0 as (S1 & S2 & S3 & S4).
  cbn [m0 runtime clocks_taken bytes_taken] in C, B.
  unfold assemble. 
  destruct (default true (includeTimestamp options)).
  - unfold now, random_byte. cbn [runtime this getRandomValues bytes_taken clocks_taken Date_now].
    rewrite S4, S3, C, B.
    destruct (getRandomValues (runtime m)) as [bytes|] eqn:GV; eexists;
      (split; [reflexivity|]);
      (split; [unfold same_sources; cbn [this runtime Math_random Date_now getRandomValues]; repeat split; congruence|]);
      (split; [apply W; [apply List.Forall_forall; auto|constructor]|]);
      intros R; apply L; exact R.
  - unfold random_byte. rewrite S4, B.
    destruct (getRandomValues (runtime m)) as [bytes|] eqn:GV; eexists;
      (split; [reflexivity|]);
      (split; [unfold same_sources; cbn [this runtime Math_random Date_now getRandomValues]; repeat split; congruence|]);
      (split; [apply W; [apply List.Forall_forall; auto|constructor]|]);
      intros R; apply L; exact R.
Qed.

Lemma generate_result (options : Options) (m m' : Machine) (id : string) :
  generate options m = (Ok id, m') ->
  exists id0,
    id = assemble options m id0 /\
    same_sources m m' /\
    within (alphabet options) id0 /\
    (in_range (runtime m) (str_length (alphabet options)) ->
     String.length id0 = Z.to_nat (finalLength m)).
Proof.
  intros G. destruct (generate_shape options m) as (id0 & m1 & E & S & W & L).
  rewrite E in G. inversion G; subst. now exists id0.
Qed.

(** X1.  Every character of an identifier is one of the alphabet the
    options select: lowercase letters and digits, uppercase letters
    unless [useUppercase] is false, the special characters only if
    [includeSpecialChars] is true.  The timestamp must not be negative
    (a date before 1970 would bring a minus sign). *)
Theorem generate_alphabet (options : Options) (m m' : Machine) (id : string) :
  generate options m = (Ok id, m') ->
  (default true (includeTimestamp options) = true ->
   0 <= Date_now (runtime m) (clocks_taken (runtime m))) ->
  within (alphabet options) id.
Proof.
  intros G T. destruct (generate_result _ _ _ _ G) as (id0 & -> & _ & W & _).
  unfold assemble.
  assert (W1 : within (alphabet options)
                 (if default true (includeTimestamp options)
                  then mix_timestamp (finalLength m) id0
                         (toString36 (Date_now (runtime m) (clocks_taken (runtime m))))
                  else id0)).
  { destruct (default true (includeTimestamp options)); [|exact W].
    unfold mix_timestamp. repeat apply within_app;
      try (apply js_substring_within; exact W).
    apply js_substring_within.
    eapply within_trans; [apply digits_within_alphabet|].
    apply toString36_within. now apply T. }
  destruct (getRandomValues (runtime m)) as [bytes|]; [|exact W1].
  unfold lead_with. apply within_app; [apply charAt_within|].
  now apply js_substring_within.
Qed.

Lemma alphabet_length (options : Options) : 36 <= str_length (alphabet options).
Proof.
  unfold alphabet.
  destruct (default true (useUppercase options)),
           (default false (includeSpecialChars options)); vm_compute; discriminate.
Qed.

Lemma lead_with_length (chars : string) (byte : Z) (id : string) :
  0 < str_length chars -> (1 <= String.length id)%nat ->
  String.length (lead_with chars byte id) = String.length id.
Proof.
  intros C I. unfold lead_with. rewrite length_append.
  rewrite charAt_length by (apply Z.mod_pos_bound; exact C).
  apply Nat2Z.inj. rewrite Nat2Z.inj_add, js_substring_length; unfold str_length; lia.
Qed.

Lemma mix_timestamp_length (fl : Z) (id timestamp : string) :
  4 <= fl -> Z.of_nat (String.length id) = fl ->
  (3 <= String.length timestamp)%nat ->
  Z.of_nat (String.length (mix_timestamp fl id timestamp)) =
  if fl =? 4 then 6 else fl.
Proof.
  intros F I T. unfold mix_timestamp.
  rewrite !length_append, !Nat2Z.inj_add.
  assert (H : 0 <= fl / 2 <= fl) by (split; [apply Z.div_pos|apply Z.div_le_upper_bound]; lia).
  rewrite !js_substring_length, js_substring_from by (unfold str_length; lia).
  unfold str_length.
  destruct (Z.eqb_spec fl 4) as [->|N].
  - change (4 / 2) with 2. lia.
  - assert (fl / 2 <= fl - 3) by (Z.div_mod_to_equations; lia).
    lia.
Qed.

(** X2.  The length of an identifier, when every random index falls in
    the alphabet and the timestamp has three digits or more (any date
    after 1970-01-01T00:00:01.296Z): it is [finalLength], between 4 and
    the larger of 4 and [maxLength], except that with the timestamp a
    [finalLength] of 4 gives 6 characters. *)
Theorem generate_length (options : Options) (m m' : Machine) (id : string) :
  generate options m = (Ok id, m') ->
  minLength (this m) = 4 ->
  in_range (runtime m) (str_length (alphabet options)) ->
  (default true (includeTimestamp options) = true ->
   1296 <= Date_now (runtime m) (clocks_taken (runtime m))) ->
  str_length id =
  (if default true (includeTimestamp options) && (finalLength m =? 4)
   then 6 else finalLength m) /\
  4 <= finalLength m <= Z.max 4 (maxLength (this m)).
Proof.
  intros G M R T. destruct (generate_result _ _ _ _ G) as (id0 & -> & _ & _ & L).
  specialize (L R).
  assert (F : 4 <= finalLength m <= Z.max 4 (maxLength (this m)))
    by (unfold finalLength; cbv zeta; rewrite M; lia).
  split; [|exact F].
  unfold assemble.
  set (id1 := if default true (includeTimestamp options) then _ else id0).
  assert (L1 : Z.of_nat (String.length id1) =
               if default true (includeTimestamp options) && (finalLength m =? 4)
               then 6 else finalLength m).
  { subst id1. destruct (default true (includeTimestamp options)); cbn [andb].
    - apply mix_timestamp_length; [lia|lia|].
      apply toString36_length. now apply T.
    - lia. }
  assert (P : (1 <= String.length id1)%nat).
  { destruct (default true (includeTimestamp options) && (finalLength m =? 4)); lia. }
  unfold str_length.
  destruct (getRandomValues (runtime m)) as [bytes|]; [|exact L1].
  rewrite lead_with_length; [exact L1| |exact P].
  pose proof (alphabet_length options). lia.
Qed.

Lemma generate_alphabet_witness :
  within (alphabet no_options) "aaav28".
Proof.
  apply (generate_alphabet no_options short_ids
           (snd (generate no_options short_ids)) "aaav28").
  - vm_compute. reflexivity.
  - intros _. vm_compute. discriminate.
Defined.

Lemma generate_length_witness :
  maxLength (this short_ids) = 4 /\ str_length "aaav28" = 6.
Proof.
  split; [reflexivity|].
  refine (proj1 (generate_length no_options short_ids
                   (snd (generate no_options short_ids)) "aaav28" _ _ _ _)).
  - vm_compute. reflexivity.
  - reflexivity.
  - intros k. vm_compute. split; [discriminate|reflexivity].
  - intros _. vm_compute. discriminate.
Defined.

End GenerateFacts.

(* ===================================================================== *)
(** * [exists]                                                           *)
(* ===================================================================== *)

Module ExistsFacts.
Import Js GenerateID GenerateSpec.

Lemma is_string_true (id : string) (v : jsval) :
  is_string id v = true <-> v = JString id.
Proof.
  destruct v; simpl; try (split; [discriminate|intros [=]]).
  rewrite String.eqb_eq. split; [now intros ->|now intros [= ->]].
Qed.

(** Reading a property throws on [undefined] and [null] only. *)
Lemma get_prop_ok (item : jsval) (field : string) :
  item <> JUndefined -> item <> JNull -> exists v, get_prop item field = Ok v.
Proof.
  intros U N. destruct item; cbn; try congruence; eauto.
  - destruct (String.eqb field "length"); [eauto|].
    destruct (lookup_index field 0 (units s)); eauto.
  - destruct (String.eqb field "length"); [eauto|].
    destruct (lookup_index field 0 items); eauto.
Qed.

(** On ASCII text a code unit is a byte. *)
Lemma units_ascii (s : string) :
  Forall (fun c => (N_of_ascii c < 128)%N) (list_ascii_of_string s) ->
  units s = List.map one (list_ascii_of_string s).
Proof.
  unfold units. induction s as [|c s IH]; intros A; [reflexivity|].
  cbn [list_ascii_of_string] in A. inversion A as [|? ? Hc A']; subst.
  cbn [units_go list_ascii_of_string List.map]. unfold trailing.
  destruct (N.ltb_spec (N_of_ascii c) 192) as [_|G]; [|lia].
  now rewrite IH.
Qed.

(** Beyond ASCII, an index counts code units and not bytes: ['éx'[1]] is
    ['x'], and a character outside the Basic Multilingual Plane has
    length 2, its first unit being a surrogate. *)
Lemma get_prop_code_units :
  get_prop (JString (str_of_bytes [195; 169; 120]%N)) "1" = Ok (JString "x") /\
  get_prop (JString (str_of_bytes [240; 159; 152; 128]%N)) "length" =
    Ok (JNumber 2) /\
  get_prop (JString (str_of_bytes [240; 159; 152; 128]%N)) "0" =
    Ok (JString (str_of_bytes [237; 160; 189]%N)).
Proof. repeat split. Qed.

(** [some] over items on which the test does not throw. *)
Lemma some_total (pred : jsval -> result bool) (items : list jsval) :
  (forall item, In item items -> exists b, pred item = Ok b) ->
  exists b, some pred items = Ok b /\
            (b = true <-> exists item, In item items /\ pred item = Ok true).
Proof.
  induction items as [|x items IH]; intros T.
  - exists false. split; [reflexivity|]. split; [discriminate|now intros (? & [] & _)].
  - destruct (T x (or_introl eq_refl)) as [bx Ex]. cbn [some]. rewrite Ex.
    destruct bx.
    + exists true. split; [reflexivity|]. split; [|reflexivity].
      intros _. exists x. split; [now left|exact Ex].
    + destruct IH as (b & E & I); [intros; apply T; now right|].
      exists b. split; [exact E|]. rewrite I. split.
      * intros (item & In' & P). exists item. split; [now right|exact P].
      * intros (item & [<-|In'] & P); [congruence|]. now exists item.
Qed.

(** X3.  On an array of strings, [exists] does not throw and answers
    whether the identifier is one of them, whatever [idField]. *)
Theorem exists_array_of_strings (id idField : string) (ids : list string) :
  exists b, exists_ id (JArray (List.map JString ids)) idField = Ok b /\
            (b = true <-> In id ids).
Proof.
  assert (E : List.existsb (is_string id) (List.map JString ids) = true <-> In id ids).
  { rewrite existsb_exists. split.
    - intros (v & I & S). apply in_map_iff in I as (s & <- & I).
      apply is_string_true in S. now inversion S; subst.
    - intros I. exists (JString id). split; [now apply in_map|now apply is_string_true]. }
  exists (List.existsb (is_string id) (List.map JString ids)).
  split; [|exact E].
  destruct ids as [|s ids]; reflexivity.
Qed.

(** X4.  On an array of objects, [exists] does not throw and answers
    whether one of them has the identifier as its own [idField]. *)
Theorem exists_array_of_objects
        (id idField : string) (rows : list (list (string * jsval))) :
  exists b, exists_ id (JArray (List.map JObject rows)) idField = Ok b /\
            (b = true <->
             exists props, In props rows /\ lookup_prop idField props = JString id).
Proof.
  destruct rows as [|r rows].
  { exists false. split; [reflexivity|]. split; [discriminate|now intros (? & [] & _)]. }
  destruct (some_total (has_id idField id) (List.map JObject (r :: rows)))
    as (b & E & I).
  { intros item In'. apply in_map_iff in In' as (props & <- & _).
    unfold has_id. cbn. eexists; reflexivity. }
  exists b. split; [exact E|]. rewrite I. split.
  - intros (item & In' & P). apply in_map_iff in In' as (props & <- & In').
    exists props. split; [exact In'|].
    unfold has_id in P. cbn in P. inversion P as [S]. now apply is_string_true.
  - intros (props & In' & L). exists (JObject props). split; [now apply in_map|].
    unfold has_id. cbn. f_equal. now apply is_string_true.
Qed.

(** X5.  On an object, [exists] does not throw; it answers [true]
    exactly when the identifier is a key of the object, or one of its
    values is an object or an array whose [idField] is the identifier. *)
Theorem exists_object (id idField : string) (props : list (string * jsval)) :
  exists b, exists_ id (JObject props) idField = Ok b /\
            (b = true <->
             (exists v, In (id, v) props) \/
             (exists k v, In (k, v) props /\ holds_id idField id v)).
Proof.
  cbn [exists_].
  set (guarded := fun item : jsval =>
         if truthy item && typeof_object item then has_id idField id item
         else Ok false).
  assert (G : forall item, exists b, guarded item = Ok b).
  { intros item. unfold guarded, has_id.
    destruct (truthy item && typeof_object item) eqn:T; [|eauto].
    destruct (get_prop_ok item idField) as [v ->]; [| |eauto];
      intros ->; discriminate. }
  assert (H : forall item, guarded item = Ok true <-> holds_id idField id item).
  { intros item. unfold guarded, holds_id, has_id. split.
    - destruct (truthy item) eqn:T, (typeof_object item) eqn:O; cbn; try discriminate.
      destruct (get_prop item idField) as [v|e]; [|discriminate].
      intros [= S]. apply is_string_true in S. now subst.
    - intros (-> & -> & ->). cbn. f_equal. apply String.eqb_refl. }
  destruct (existsb (fun kv => String.eqb (fst kv) id) props) eqn:K.
  - exists true. split; [reflexivity|]. split; [|reflexivity]. intros _. left.
    apply existsb_exists in K as ([k v] & I & E). apply String.eqb_eq in E.
    cbn in E. subst. now exists v.
  - destruct (some_total guarded (List.map snd props)) as (b & E & I);
      [intros; apply G|].
    exists b. split; [exact E|]. rewrite I. split.
    + intros (item & In' & P). right.
      apply in_map_iff in In' as ([k v] & <- & In').
      exists k, v. split; [exact In'|now apply H].
    + intros [(v & In')|(k & v & In' & P)].
      * exfalso. apply Bool.not_true_iff_false in K. apply K.
        apply existsb_exists. exists (id, v). split; [exact In'|].
        apply String.eqb_refl.
      * exists v. split; [|now apply H].
        apply in_map_iff. now exists (k, v).
Qed.

Lemma dec_not_id (i : N) : String.eqb (dec i) "id" = false.
Proof.
  apply String.eqb_neq. unfold dec.
  destruct (N.to_uint i) as [|u|u|u|u|u|u|u|u|u|u]; cbn; discriminate.
Qed.

Lemma lookup_index_id {A} (i : N) (l : list A) : lookup_index "id" i l = None.
Proof.
  revert i. induction l as [|x l IH]; intros i; cbn [lookup_index]; [reflexivity|].
  rewrite dec_not_id. apply IH.
Qed.

(** X6.  The test on the first element decides for the whole array: when
    it is an object, an identifier that the array holds as a plain
    string is not found (with the default [idField], ['id']). *)
Theorem exists_misses_strings_after_object
        (id : string) (props : list (string * jsval)) (ids : list string) :
  In id ids ->
  lookup_prop "id" props <> JString id ->
  exists_ id (JArray (JObject props :: List.map JString ids)) "id" = Ok false.
Proof.
  intros _ N. cbn [exists_ List.nth typeof_object some].
  unfold has_id at 1. cbn [get_prop].
  destruct (is_string id (lookup_prop "id" props)) eqn:S.
  { apply is_string_true in S. contradiction. }
  clear. induction ids as [|s ids IH]; [reflexivity|].
  cbn [List.map some]. unfold has_id at 1. cbn [get_prop].
  change (String.eqb "id" "length") with false. cbv iota.
  rewrite lookup_index_id. cbn [is_string]. exact IH.
Qed.

Lemma exists_misses_strings_after_object_witness :
  exists_ "k7" (JArray [JObject [("id", JString "a1")]; JString "k7"]) "id" =
  Ok false.
Proof.
  apply (exists_misses_strings_after_object "k7" [("id", JString "a1")] ["k7"]).
  - now left.
  - discriminate.
Defined.

(** [exists] throws on [null] and on an array that starts with [null]. *)
Lemma exists_null_led (id idField : string) (collection : jsval) :
  null_led collection ->
  exists msg, exists_ id collection idField = Throw (TypeError msg).
Proof.
  intros [->|[rest ->]]; cbn; eauto.
Qed.

End ExistsFacts.

(* ===================================================================== *)
(** * [generateUnique]: what it returns, and when                        *)
(* ===================================================================== *)

Module UniqueFacts.
Import Js GenerateID GenerateSpec LoopFacts Text GenerateFacts ExistsFacts.

(** [generate] returns, and leaves the object as it is. *)
Lemma generate_keeps_this (options : Options) (m : Machine) :
  exists id m', generate options m = (Ok id, m') /\ this m' = this m.
Proof.
  destruct (generate_shape options m) as (id0 & m' & E & (S & _) & _).
  eauto.
Qed.

(** The loop: the count it ends on, and what the last identifier is. *)
Lemma attempt_end (collection : jsval) (options : Options) (idField : string)
      (fuel : nat) (attempts : Z) (m m' : Machine) (id : string) (n : Z) :
  maxAttempts - 1 - attempts <= Z.of_nat fuel ->
  attempt fuel collection options idField attempts m = (Ok (id, n), m') ->
  this m' = this m /\ attempts < n /\
  (n < maxAttempts -> exists_ id collection idField = Ok false).
Proof.
  revert attempts m. induction fuel as [|fuel IH]; intros attempts m B A.
  - cbn [attempt] in A. unfold bind in A.
    destruct (generate_keeps_this options m) as (id1 & m1 & G & T).
    rewrite G in A. unfold check in A.
    destruct (exists_ id1 collection idField) as [taken|e] eqn:X; [|discriminate].
    assert (L : (attempts + 1 <? maxAttempts) = false)
      by (apply Z.ltb_ge; unfold maxAttempts in *; lia).
    rewrite L, andb_false_r in A. inversion A; subst.
    split; [exact T|]. split; [lia|]. unfold maxAttempts in *. lia.
  - change (attempt (S fuel) collection options idField attempts m)
      with (bind (generate options) (fun newId =>
              let attempts := attempts + 1 in
              bind (check newId collection idField) (fun taken =>
              if taken && (attempts <? maxAttempts)
              then attempt fuel collection options idField attempts
              else ret (newId, attempts))) m) in A.
    unfold bind in A.
    destruct (generate_keeps_this options m) as (id1 & m1 & G & T).
    rewrite G in A. unfold check in A.
    destruct (exists_ id1 collection idField) as [taken|e] eqn:X; [|discriminate].
    cbv zeta in A.
    destruct (taken && (attempts + 1 <? maxAttempts)) eqn:C.
    + apply IH in A; [|lia]. destruct A as (T' & L & F).
      split; [congruence|]. split; [lia|exact F].
    + unfold ret in A. inversion A; subst.
      split; [exact T|]. split; [lia|]. intros N.
      apply andb_false_iff in C as [->|C]; [exact X|].
      apply Z.ltb_ge in C. lia.
Qed.

(** X7.  What [generateUnique] returns is not in the collection, unless
    the hundred attempts were used up; and that shows on the object,
    whose [maxLength] has then grown by 2 for good. *)
Theorem generateUnique_unique_or_grown
        (collection : jsval) (options : Options) (idField : string)
        (m m' : Machine) (id : string) :
  generateUnique collection options idField m = (Ok id, m') ->
  minLength (this m') = minLength (this m) /\
  ((maxLength (this m') = maxLength (this m) /\
    exists_ id collection idField = Ok false) \/
   maxLength (this m') = maxLength (this m) + 2).
Proof.
  unfold generateUnique, bind. intros G.
  destruct (attempt (Z.to_nat maxAttempts) collection options idField 0 m)
    as [[[id1 n]|e] m1] eqn:A; [|discriminate].
  apply attempt_end in A; [|unfold maxAttempts; lia].
  destruct A as (T & _ & F).
  destruct (Z.leb_spec maxAttempts n) as [L|L].
  - unfold extend, modify in G.
    destruct (generate_keeps_this options
                (Mk_Machine (Mk_Self (maxLength (this m1) + 2) (minLength (this m1)))
                            (runtime m1))) as (id2 & m2 & G2 & T2).
    rewrite G2 in G. inversion G; subst. rewrite T2, T. cbn. auto.
  - unfold ret in G. inversion G; subst. rewrite T. auto.
Qed.

(** X8.  When the first identifier generated is not in the collection,
    it is the one returned, after that single [generate]: nothing more
    is drawn and the object is unchanged. *)
Theorem generateUnique_first_attempt
        (collection : jsval) (options : Options) (idField : string)
        (m m' : Machine) (id : string) :
  generate options m = (Ok id, m') ->
  exists_ id collection idField = Ok false ->
  generateUnique collection options idField m = (Ok id, m') /\
  this m' = this m.
Proof.
  intros G X. split.
  - unfold generateUnique.
    change (Z.to_nat maxAttempts) with (S 99).
    cbn [attempt]. unfold bind, check. rewrite G, X. reflexivity.
  - destruct (generate_keeps_this options m) as (id1 & m1 & G1 & T).
    congruence.
Qed.

(** X9.  A collection that is [null], or an array starting with [null],
    makes [generateUnique] throw a [TypeError] after a single
    [generate]. *)
Theorem generateUnique_null_led
        (collection : jsval) (options : Options) (idField : string) (m : Machine) :
  null_led collection ->
  exists msg,
    generateUnique collection options idField m =
    (Throw (TypeError msg), snd (generate options m)).
Proof.
  intros N.
  destruct (generate_keeps_this options m) as (id & m1 & G & _).
  destruct (exists_null_led id idField collection N) as [msg X].
  exists msg. unfold generateUnique.
  change (Z.to_nat maxAttempts) with (S 99).
  cbn [attempt]. unfold bind, check. rewrite G, X. reflexivity.
Qed.

Lemma generateUnique_unique_or_grown_witness :
  maxLength
    (this (snd (generateUnique Scenario.taken_ids Scenario.no_timestamp "id"
                               (Mk_Machine (constructor None)
                                           Scenario.stuck_runtime)))) = 8 + 2.
Proof.
  destruct (generateUnique_unique_or_grown
              Scenario.taken_ids Scenario.no_timestamp "id"
              (Mk_Machine (constructor None) Scenario.stuck_runtime)
              (snd (generateUnique Scenario.taken_ids Scenario.no_timestamp "id"
                      (Mk_Machine (constructor None) Scenario.stuck_runtime)))
              "aaaa")
    as (_ & [[_ X]|G]).
  - vm_compute. reflexivity.
  - vm_compute in X. discriminate.
  - exact G.
Defined.

Lemma generateUnique_first_attempt_witness :
  fst (generateUnique (JArray [JString "zzzz"]) Scenario.no_timestamp "id"
                      (Mk_Machine (constructor None) Scenario.stuck_runtime)) =
  Ok "aaaa".
Proof.
  rewrite (proj1 (generateUnique_first_attempt
                    (JArray [JString "zzzz"]) Scenario.no_timestamp "id"
                    (Mk_Machine (constructor None) Scenario.stuck_runtime)
                    (snd (generate Scenario.no_timestamp
                            (Mk_Machine (constructor None) Scenario.stuck_runtime)))
                    "aaaa" ltac:(vm_compute; reflexivity)
                    ltac:(vm_compute; reflexivity))).
  reflexivity.
Defined.

Lemma generateUnique_null_led_witness :
  exists msg,
    fst (generateUnique (JArray [JNull; JString "aaaa"]) no_options "id"
                        short_ids) = Throw (TypeError msg).
Proof.
  destruct (generateUnique_null_led (JArray [JNull; JString "aaaa"]) no_options
              "id" short_ids) as [msg E].
  - right. now exists [JString "aaaa"].
  - exists msg. now rewrite E.
Defined.

(** X10.  The loop stops on the count alone: when the hundredth attempt
    ends it, its identifier is dropped even if the collection does not
    hold it; [maxLength] grows by 2 and one more [generate], which
    [exists] is not asked about, gives the result. *)
Theorem generateUnique_discards_last_attempt
        (collection : jsval) (options : Options) (idField : string)
        (m m1 : Machine) (last : string) :
  attempt (Z.to_nat maxAttempts) collection options idField 0 m =
  (Ok (last, maxAttempts), m1) ->
  exists_ last collection idField = Ok false ->
  generateUnique collection options idField m =
  generate options (snd (extend m1)) /\
  maxLength (this (snd (generateUnique collection options idField m))) =
  maxLength (this m) + 2.
Proof.
  intros A _.
  assert (G : generateUnique collection options idField m =
              generate options (snd (extend m1)))
    by (apply (generateUnique_after_last_attempt _ _ _ _ _ _ A)).
  split; [exact G|]. rewrite G.
  apply attempt_end in A; [|unfold maxAttempts; lia].
  destruct A as (T & _).
  destruct (generate_keeps_this options (snd (extend m1))) as (id & m2 & E & T2).
  rewrite E. cbn [snd]. rewrite T2. cbn. now rewrite T.
Qed.

Lemma generateUnique_discards_last_attempt_witness :
  fst (attempt (Z.to_nat maxAttempts) Scenario.taken_ids Scenario.no_timestamp
               "id" 0 late) = Ok ("bbbb", maxAttempts) /\
  exists_ "bbbb" Scenario.taken_ids "id" = Ok false /\
  fst (generateUnique Scenario.taken_ids Scenario.no_timestamp "id" late) =
  Ok "aaaa" /\
  exists_ "aaaa" Scenario.taken_ids "id" = Ok true.
Proof.
  split; [vm_compute; reflexivity|]. split; [reflexivity|].
  split; [|reflexivity].
  rewrite (proj1 (generateUnique_discards_last_attempt
                    Scenario.taken_ids Scenario.no_timestamp "id" late
                    (snd (attempt (Z.to_nat maxAttempts) Scenario.taken_ids
                                  Scenario.no_timestamp "id" 0 late))
                    "bbbb" ltac:(vm_compute; reflexivity) eq_refl)).
  vm_compute. reflexivity.
Defined.

End UniqueFacts.

(* ===================================================================== *)
(** * The identifier module: frames and compositions                     *)
(* ===================================================================== *)

Module MachineFacts.
Import Js UniqueUserID Fingerprint MachineSpec RunFacts DigestFacts SortFacts
       FieldFacts.

(** X11.  [getNetworkMACs] returns, in ascending order and with their
    repetitions, the addresses of the entries that are neither internal
    nor the all-zero placeholder, and no other. *)
Theorem getNetworkMACs_addresses (m : Machine) :
  exists macs,
    fst (getNetworkMACs m) = Ok macs /\
    StronglySorted le macs /\
    Permutation macs (List.flat_map pushed (networkInterfaces (os (world m)))) /\
    (forall a, In a macs <->
       exists iface d,
         In iface (networkInterfaces (os (world m))) /\ In d (snd iface) /\
         internal d = false /\ mac d <> zero_mac /\ mac d = a).
Proof.
  exists (sort (collect_macs (networkInterfaces (os (world m))))).
  split; [destruct m as [g [o ex pj f t]]; reflexivity|].
  split; [apply sort_sorted|]. split.
  - rewrite sort_perm. now rewrite collect_macs_flat_map.
  - intros a. rewrite <- collect_macs_wanted. split; intros I.
    + eapply Permutation_in; [apply sort_perm|exact I].
    + eapply Permutation_in; [apply Permutation_sym, sort_perm|exact I].
Qed.

(** [verifyID], run: its answer and the machine it leaves. *)
Lemma verifyID_run (m : Machine) :
  verifyID m =
  (Ok (match fs_read (fs (world m)) (storageFile (this m)) with
       | Ok c => negb (String.eqb c "")
       | Throw _ => false
       end),
   Mk_Machine (this m)
     (after (verify_events (fs (world m)) (storageFile (this m)))
            (fs (world m)) (world m))).
Proof.
  destruct m as [[u file] [o ex pj f t]]. unfold verifyID, verify_events. run.
  destruct (fs_exists f file) eqn:X; cbn [negb].
  - destruct (fs_read f file) as [c|e].
    + destruct (String.eqb c ""); cbn; rewrite <- !app_assoc; reflexivity.
    + cbn; rewrite <- !app_assoc; reflexivity.
  - unfold fs_exists, fs_read in *.
    destruct (nodes f !! file); [discriminate|reflexivity].
Qed.

(** X12.  [verifyID] changes nothing: the file system and the object are
    as before, and its only calls are [existsSync], then [readFileSync]
    if the file exists, then [console.error] if the read throws. *)
Theorem verifyID_reads_only (m : Machine) :
  fs (world (snd (verifyID m))) = fs (world m) /\
  this (snd (verifyID m)) = this m /\
  trace (world (snd (verifyID m))) =
  (trace (world m) ++ verify_events (fs (world m)) (storageFile (this m)))%list.
Proof. rewrite verifyID_run. repeat split. Qed.

(** X13.  After its call, [this.userID] is the string [generateID]
    returned, and [this.storageFile] is unchanged. *)
Theorem generateID_sets_userID (m : Machine) :
  exists id,
    fst (generateID m) = Ok id /\
    userID (this (snd (generateID m))) = Some id /\
    storageFile (this (snd (generateID m))) = storageFile (this m).
Proof.
  destruct (fs_read_cases (fs (world m)) (storageFile (this m))) as [[c R]|[e R]].
  - exists c. now rewrite (generateID_stored m c R).
  - eexists. rewrite (generateID_fresh m e R). repeat split.
Qed.

Lemma digest_not_empty (s : string) : is_digest s = true -> s <> "".
Proof. intros D ->. discriminate. Qed.

(** A write on a free path that is not denied creates the file. *)
Lemma write_free (f : FileSys) (file data : string) (mode : Z) :
  fs_exists f file = false -> file ∉ denied_write f ->
  exists f', fs_write f file data mode = Ok f' /\
             nodes f' !! file = Some (Regular data mode) /\
             denied_read f' = denied_read f /\
             denied_write f' = denied_write f.
Proof.
  intros X W. unfold fs_exists in X. unfold fs_write.
  destruct (decide (file ∈ denied_write f)); [contradiction|].
  destruct (nodes f !! file) eqn:N; [discriminate|].
  eexists. split; [reflexivity|]. cbn. split; [apply lookup_insert_eq|auto].
Qed.

Lemma read_regular (f : FileSys) (file c : string) (mode : Z) :
  nodes f !! file = Some (Regular c mode) -> file ∉ denied_read f ->
  fs_read f file = Ok c.
Proof.
  intros N R. unfold fs_read. rewrite N.
  destruct (decide (file ∈ denied_read f)); [contradiction|reflexivity].
Qed.

Lemma absent_read (f : FileSys) (file : string) :
  fs_exists f file = false -> fs_read f file = Throw (ENOENT file).
Proof.
  unfold fs_exists, fs_read. destruct (nodes f !! file); [discriminate|reflexivity].
Qed.

(** X14.  After a first run of [generateID] that could write the file,
    on a path the process may read, [verifyID] answers [true]. *)
Theorem verifyID_after_generateID (m : Machine) :
  let file := storageFile (this m) in
  fs_exists (fs (world m)) file = false ->
  file ∉ denied_write (fs (world m)) ->
  file ∉ denied_read (fs (world m)) ->
  fst (verifyID (snd (generateID m))) = Ok true.
Proof.
  intros file X W R.
  rewrite verifyID_run, (generateID_fresh m _ (absent_read _ _ X)). cbn [fst].
  cbn [snd world this storageFile after fs]. fold file.
  destruct (write_free (fs (world m)) file (fresh_id (world m)) mode_0o600 X W)
    as (f' & Wr & N & D & _).
  unfold write_outcome. rewrite Wr. cbn [fst].
  rewrite (read_regular f' file _ _ N) by (rewrite D; exact R).
  apply f_equal. apply negb_true_iff, String.eqb_neq, digest_not_empty.
  apply hashString_is_digest.
Qed.

Lemma get_field_set_same (k : string) (v : value) (o : object) :
  get_field k (set_field k v o) = Some v.
Proof.
  induction o as [|[k0 v0] o IH]; cbn [set_field get_field].
  - now rewrite String.eqb_refl.
  - destruct (String.eqb_spec k0 k) as [->|N]; cbn [get_field].
    + now rewrite String.eqb_refl.
    + destruct (String.eqb_spec k0 k); [contradiction|exact IH].
Qed.

Lemma run_table_all (ex : string -> option string) (table : list probe_row)
      (o : object) :
  Forall (fun r => answers ex r = true) table ->
  fst (run_table ex table o) = table_fields ex table o.
Proof.
  intros A. revert o. induction A as [|r table Hr A IH]; intros o; [reflexivity|].
  cbn [run_table table_fields fold_left]. unfold answers in Hr.
  destruct (ex (command r)) as [out|]; [|discriminate].
  specialize (IH (set_field (field r) (VString (keep r (trim out))) o)).
  destruct (run_table ex table _) as [o' evs]. exact IH.
Qed.

Lemma keys_table_fields (ex : string -> option string) (table : list probe_row)
      (o : object) :
  List.NoDup (keys o ++ List.map field table) ->
  keys (table_fields ex table o) = (keys o ++ List.map field table)%list.
Proof.
  revert o. induction table as [|r table IH]; intros o N.
  - cbn. now rewrite app_nil_r.
  - cbn [table_fields fold_left List.map].
    assert (X : ~ In (field r) (keys o)).
    { intros I. apply NoDup_remove_2 in N. apply N, in_or_app. now left. }
    change (fold_left _ table ?o') with (table_fields ex table o').
    rewrite IH; rewrite keys_set_field_new by exact X.
    + now rewrite <- app_assoc.
    + rewrite <- app_assoc. exact N.
Qed.

Lemma table_fields_other (ex : string -> option string) (table : list probe_row)
      (o : object) (k : string) :
  ~ In k (List.map field table) ->
  get_field k (table_fields ex table o) = get_field k o.
Proof.
  revert o. induction table as [|r table IH]; intros o N; [reflexivity|].
  cbn [table_fields fold_left].
  change (fold_left _ table ?o') with (table_fields ex table o').
  rewrite IH by (intros I; apply N; now right).
  apply get_field_set_other. intros ->. apply N. now left.
Qed.

Lemma table_fields_get (ex : string -> option string) (table : list probe_row)
      (o : object) (r : probe_row) :
  List.NoDup (List.map field table) -> In r table ->
  get_field (field r) (table_fields ex table o) =
  Some (VString (keep r (trim (default "" (ex (command r)))))).
Proof.
  revert o. induction table as [|r0 table IH]; intros o N I; [destruct I|].
  cbn [List.map] in N. inversion N as [|? ? X N']; subst.
  cbn [table_fields fold_left].
  change (fold_left _ table ?o') with (table_fields ex table o').
  destruct I as [->|I].
  - rewrite table_fields_other by exact X. apply get_field_set_same.
  - now apply IH.
Qed.

(** X15.  When every probe of the platform answers, the fingerprint
    holds the ten universal fields followed by the platform's fields in
    the order of the probes, each with what is kept of the trimmed
    output of its command. *)
Theorem getSystemInfo_all_probes (m : Machine) :
  let table := platform_table (platform (os (world m))) in
  Forall (fun r => answers (exec (world m)) r = true) table ->
  exists info,
    fst (getSystemInfo m) = Ok info /\
    keys info = (universal_keys ++ List.map field table)%list /\
    (forall r out,
       In r table -> exec (world m) (command r) = Some out ->
       get_field (field r) info = Some (VString (keep r (trim out)))).
Proof.
  intros table A. exists (system_info (os (world m)) (exec (world m))).
  rewrite getSystemInfo_run. split; [reflexivity|].
  unfold system_info. fold table. rewrite (run_table_all _ _ _ A).
  pose proof (platform_fields_distinct (platform (os (world m)))) as N.
  fold table in N. split.
  - now apply (keys_table_fields _ table (universal_info (os (world m)))).
  - intros r out I E. rewrite table_fields_get; [now rewrite E| |exact I].
    now apply NoDup_app_remove_l in N.
Qed.

Lemma run_table_commands (ex : string -> option string)
      (table : list probe_row) (o : object) (cmd : string) :
  In (ExecSync cmd) (snd (run_table ex table o)) ->
  In cmd (List.map command table).
Proof.
  revert o. induction table as [|r table IH]; intros o; cbn [run_table].
  - intros [].
  - destruct (ex (command r)) as [out|].
    + specialize (IH (set_field (field r) (VString (keep r (trim out))) o)).
      destruct (run_table ex table _) as [o' evs]. cbn [snd] in *.
      intros [[= <-]|I]; [now left|right; auto].
    + intros [[= <-]|[]]. now left.
Qed.

(** X16.  [getSystemInfo] leaves the file system and the object as they
    are, and runs no command but those of the probes of the machine's
    own platform. *)
Theorem getSystemInfo_own_platform_only (m : Machine) :
  fs (world (snd (getSystemInfo m))) = fs (world m) /\
  this (snd (getSystemInfo m)) = this m /\
  (forall cmd,
     In (ExecSync cmd) (trace (world (snd (getSystemInfo m)))) ->
     In (ExecSync cmd) (trace (world m)) \/
     In cmd (List.map command (platform_table (platform (os (world m)))))).
Proof.
  rewrite getSystemInfo_run. cbn [snd world fs this after trace].
  split; [reflexivity|]. split; [reflexivity|].
  intros cmd I. apply in_app_or in I as [I|I]; [now left|right].
  unfold system_events, table_events, platform_table in *.
  set (p := platform (os (world m))) in *.
  assert (U : ~ In (ExecSync cmd) universal_events).
  { cbn. intuition discriminate. }
  apply in_app_or in I as [I|I]; [contradiction|].
  destruct (String.eqb_spec p "win32") as [E|_].
  { rewrite E in I. cbn [String.eqb Ascii.eqb Bool.eqb] in I.
    cbn [app In] in I.
    destruct I as [I|I]; [discriminate|].
    apply in_app_or in I as [I|I]; [eapply run_table_commands; exact I|].
    cbn in I. intuition discriminate. }
  destruct (String.eqb_spec p "linux") as [E|_].
  { rewrite E in I. cbn [String.eqb Ascii.eqb Bool.eqb] in I.
    cbn [app In] in I.
    destruct I as [I|[I|I]]; try discriminate.
    apply in_app_or in I as [I|I]; [eapply run_table_commands; exact I|].
    cbn in I. intuition discriminate. }
  cbn [app In] in I.
  destruct I as [I|[I|[I|I]]]; try discriminate.
  destruct (String.eqb p "darwin"); [|destruct I].
  eapply run_table_commands; exact I.
Qed.

(** X17.  [getUniqueUserID] builds a new generator at each call; on a
    machine where the file is absent and may be written and read, a
    first call returns the digest and a second call returns the same
    string, after [os.homedir()] and the two file-system calls only. *)
Theorem getUniqueUserID_twice (w : World) :
  let file := path_join w (homedir (os w)) ".unique_hw_id" in
  let w1 := snd (getUniqueUserID w) in
  fs_exists (fs w) file = false ->
  file ∉ denied_write (fs w) ->
  file ∉ denied_read (fs w) ->
  exists id,
    fst (getUniqueUserID w) = Ok id /\
    is_digest id = true /\
    fst (getUniqueUserID w1) = Ok id /\
    trace (snd (getUniqueUserID w1)) =
    (trace w1 ++ [OsCall "homedir"; ExistsSync file; ReadFileSync file])%list.
Proof.
  intros file w1 X W R. exists (fresh_id w).
  assert (G : generateID (new_generator w) =
              (Ok (fresh_id w),
               Mk_Machine (Mk_Generator (Some (fresh_id w)) file)
                 (after (read_failure (fs w) file (ENOENT file) ++
                         system_events (os w) (exec w) ++
                         WriteFileSync file (fresh_id w) mode_0o600 ::
                         snd (write_outcome (fs w) file (fresh_id w)))%list
                        (fst (write_outcome (fs w) file (fresh_id w)))
                        (log (OsCall "homedir") w)))).
  { apply (generateID_fresh (new_generator w) (ENOENT file)).
    apply absent_read. exact X. }
  destruct (write_free (fs w) file (fresh_id w) mode_0o600 X W)
    as (f' & Wr & N & D & _).
  unfold write_outcome in G. rewrite Wr in G. cbn [fst snd] in G.
  assert (E1 : getUniqueUserID w = (Ok (fresh_id w), w1)).
  { subst w1. unfold getUniqueUserID. rewrite G. reflexivity. }
  assert (W1 : w1 = after (read_failure (fs w) file (ENOENT file) ++
                           system_events (os w) (exec w) ++
                           [WriteFileSync file (fresh_id w) mode_0o600])%list
                          f' (log (OsCall "homedir") w)).
  { subst w1. unfold getUniqueUserID. rewrite G. reflexivity. }
  rewrite E1. cbn [fst]. split; [reflexivity|].
  split; [apply hashString_is_digest|].
  assert (R1 : fs_read (fs (world (new_generator w1)))
                       (storageFile (this (new_generator w1))) =
               Ok (fresh_id w)).
  { rewrite W1. cbn [new_generator world this storageFile log after os fs
                     path_join homedir]. fold file.
    apply (read_regular f' file _ _ N). now rewrite D. }
  unfold getUniqueUserID at 1 2.
  rewrite (generateID_stored (new_generator w1) _ R1).
  cbn [fst snd world after trace new_generator log this storageFile].
  split; [reflexivity|].
  rewrite W1. cbn [after log trace path_join os]. fold file.
  rewrite <- !app_assoc. reflexivity.
Qed.

Lemma verifyID_after_generateID_witness :
  fst (verifyID
         (snd (generateID (Scenario.boot Scenario.laptop Scenario.exec_ok
                                         Scenario.empty_disk)))) = Ok true.
Proof.
  apply (verifyID_after_generateID
           (Scenario.boot Scenario.laptop Scenario.exec_ok Scenario.empty_disk)).
  - vm_compute. reflexivity.
  - apply not_elem_of_empty.
  - apply not_elem_of_empty.
Defined.

Lemma getSystemInfo_all_probes_witness :
  exists info,
    fst (getSystemInfo (Scenario.boot Scenario.laptop Scenario.exec_ok
                                      Scenario.empty_disk)) = Ok info /\
    keys info =
    (universal_keys ++
     ["systemUUID"; "motherboardSerial"; "cpuDetails"; "mainDiskUUID"])%list.
Proof.
  destruct (getSystemInfo_all_probes
              (Scenario.boot Scenario.laptop Scenario.exec_ok Scenario.empty_disk))
    as (info & H1 & H2 & _).
  - repeat constructor.
  - exists info. split; [exact H1|exact H2].
Defined.

Lemma getUniqueUserID_twice_witness :
  exists id,
    fst (getUniqueUserID
           (Mk_World Scenario.laptop Scenario.exec_ok Scenario.join
                     Scenario.empty_disk [])) = Ok id /\
    fst (getUniqueUserID
           (snd (getUniqueUserID
                   (Mk_World Scenario.laptop Scenario.exec_ok Scenario.join
                             Scenario.empty_disk [])))) = Ok id.
Proof.
  destruct (getUniqueUserID_twice
              (Mk_World Scenario.laptop Scenario.exec_ok Scenario.join
                        Scenario.empty_disk []))
    as (id & H1 & _ & H3 & _).
  - vm_compute. reflexivity.
  - apply not_elem_of_empty.
  - apply not_elem_of_empty.
  - exists id. split; [exact H1|exact H3].
Defined.

End MachineFacts.

(* ===================================================================== *)
(** * The lines the Windows probes keep                                  *)
(* ===================================================================== *)

Module LineFacts.
Import Js UniqueUserID Fingerprint MachineSpec RunFacts DigestFacts SortFacts
       FieldFacts MachineFacts.

Lemma append_one (cur : string) (c : ascii) (s : string) :
  ((cur ++ one c) ++ s)%string = (cur ++ String c s)%string.
Proof.
  induction cur as [|x cur IH]; [reflexivity|].
  change (String x ((cur ++ one c) ++ s) = String x (cur ++ String c s)).
  now rewrite IH.
Qed.

Lemma append_empty (s : string) : (s ++ "")%string = s.
Proof.
  induction s as [|x s IH]; [reflexivity|].
  change (String x (s ++ "") = String x s). now rewrite IH.
Qed.

Lemma split_go_step (sep cur : string) (c : ascii) (rest : string) :
  split_go sep 0 cur (String c rest) =
  if String.prefix sep (String c rest)
  then cur :: split_go sep (String.length sep - 1) "" rest
  else split_go sep 0 (cur ++ one c) rest.
Proof. reflexivity. Qed.

Lemma prefix_LF (c : ascii) (s : string) :
  String.prefix LF (String c s) =
  if Ascii.ascii_dec (ascii_of_N 10) c then true else false.
Proof.
  unfold LF, one. cbn [String.prefix].
  destruct (Ascii.ascii_dec (ascii_of_N 10) c); [|reflexivity].
  destruct s; reflexivity.
Qed.

Lemma split_go_last (a cur : string) :
  one_line a -> split_go LF 0 cur a = [(cur ++ a)%string].
Proof.
  revert cur. induction a as [|c a IH]; intros cur L.
  - cbn. now rewrite append_empty.
  - inversion L as [|? ? N L']; subst.
    rewrite split_go_step, prefix_LF.
    destruct (Ascii.ascii_dec (ascii_of_N 10) c) as [E|_]; [congruence|].
    rewrite IH by exact L'. now rewrite append_one.
Qed.

Lemma split_go_line (a cur s : string) :
  one_line a ->
  split_go LF 0 cur (a ++ LF ++ s) = (cur ++ a)%string :: split_go LF 0 "" s.
Proof.
  revert cur. induction a as [|c a IH]; intros cur L.
  - change ("" ++ LF ++ s)%string with (String (ascii_of_N 10) s).
    rewrite split_go_step, prefix_LF.
    destruct (Ascii.ascii_dec (ascii_of_N 10) (ascii_of_N 10)); [|congruence].
    now rewrite append_empty.
  - inversion L as [|? ? N L']; subst.
    change (String c a ++ LF ++ s)%string with (String c (a ++ LF ++ s)).
    rewrite split_go_step, prefix_LF.
    destruct (Ascii.ascii_dec (ascii_of_N 10) c) as [E|_]; [congruence|].
    rewrite IH by exact L'. now rewrite append_one.
Qed.

Lemma second_single (a : string) : one_line a -> second LF a = "".
Proof.
  intros L. unfold second, split. change (String.eqb LF "") with false.
  cbv iota. now rewrite split_go_last.
Qed.

Lemma second_lines (a b rest : string) :
  one_line a -> one_line b ->
  second LF (a ++ LF ++ b) = b /\
  second LF (a ++ LF ++ b ++ LF ++ rest) = b.
Proof.
  intros La Lb. unfold second, split. change (String.eqb LF "") with false.
  cbv iota. rewrite !split_go_line by assumption.
  rewrite split_go_last by assumption. cbn [nth_error or_empty].
  destruct b; split; reflexivity.
Qed.

(** X18.  On Windows, when every probe answers, a field holds the second
    line of the trimmed output of its command, as it stands: the empty
    string when the output is a single line, and the second line alone
    when more lines follow. *)
Theorem windows_probe_keeps_second_line
        (m : Machine) (r : probe_row) (out a b rest : string) :
  platform (os (world m)) = "win32" ->
  Forall (fun r => answers (exec (world m)) r = true) windows_table ->
  In r windows_table ->
  exec (world m) (command r) = Some out ->
  one_line a -> one_line b ->
  exists info,
    fst (getSystemInfo m) = Ok info /\
    (trim out = a -> get_field (field r) info = Some (VString "")) /\
    (trim out = (a ++ LF ++ b)%string \/
     trim out = (a ++ LF ++ b ++ LF ++ rest)%string ->
     get_field (field r) info = Some (VString b)).
Proof.
  intros P A I E La Lb. exists (system_info (os (world m)) (exec (world m))).
  rewrite getSystemInfo_run. split; [reflexivity|].
  unfold system_info. rewrite P.
  change (platform_table "win32") with windows_table.
  rewrite (run_table_all _ _ _ A).
  assert (K : keep r = second LF).
  { cbn in I. destruct I as [<-|[<-|[<-|[<-|[]]]]]; reflexivity. }
  rewrite table_fields_get; [|apply NoDup_ListNoDup, (bool_decide_unpack _); vm_compute; exact Logic.I|exact I].
  rewrite E, K. change (default "" (Some out)) with out. split.
  - intros T. rewrite T. now rewrite second_single.
  - destruct (second_lines a b rest La Lb) as [S1 S2].
    intros [T|T]; rewrite T; [now rewrite S1|now rewrite S2].
Qed.

Lemma windows_probe_keeps_second_line_witness :
  exists info,
    fst (getSystemInfo (Scenario.boot desktop wmic Scenario.empty_disk)) = Ok info /\
    get_field "diskSerial" info = Some (VString "WD-1  ").
Proof.
  destruct (windows_probe_keeps_second_line
              (Scenario.boot desktop wmic Scenario.empty_disk)
              (Row "wmic diskdrive get SerialNumber" "diskSerial" (second LF))
              ("SerialNumber  " ++ LF ++ "WD-1  " ++ LF ++ "WD-2  " ++ LF)
              "SerialNumber  " "WD-1  " "WD-2")
    as (info & H1 & _ & H3).
  - reflexivity.
  - repeat constructor.
  - now left.
  - reflexivity.
  - repeat constructor; discriminate.
  - repeat constructor; discriminate.
  - exists info. split; [exact H1|]. apply H3. right. vm_compute. reflexivity.
Defined.
End LineFacts.
